(** * parse_ctrees.h: a shallow embedding and its checked properties

    The header [parse_ctrees.h] reads Consistent-Trees merger-tree files:
    [parse_header_ctrees] resolves requested column names against the header
    line, [parse_line_ctrees] converts one row of text into typed values
    written into caller-owned buffers, [reallocate_base_ptrs] grows those
    buffers, and [read_single_tree_ctrees] streams one tree block through the
    line parser.

    Conventions of the embedding.
    - A C function that mutates its arguments becomes a function from the
      state before the call to an [outcome]: the returned status together
      with the state after the call, or [Undefined] where the C program
      leaves defined behaviour (an out-of-bounds access), or [OutOfFuel]
      where a loop was cut off by the step bound given to the model.
    - The assertion macro [PARSE_CTREES_XASSERT] is modelled as compiled
      without [NDEBUG] (the default): a failed assertion returns its status.
    - [long] and [size_t] are 64 bits wide (LP64).
    - NUL-terminated text is a [string] without the terminator; raw arrays of
      [char] are [list ascii].
    - The contents of automatic arrays and of freshly allocated storage are
      indeterminate in C; they are parameters of the model.
    - Where the C standard leaves a library function's behaviour to the
      implementation, the model follows glibc: [atoi] is [(int) strtol], and
      a [realloc] that is asked for 0 bytes and returns NULL has freed the
      block. *)

From Stdlib Require Import ZArith List Ascii String Bool Lia Permutation Sorted.
Import ListNotations.

Local Open Scope string_scope.
Local Open Scope Z_scope.
Local Open Scope list_scope.

(** ** Outcomes and status codes *)

Definition EXIT_SUCCESS : Z := 0.
Definition EXIT_FAILURE : Z := 1.

Inductive outcome (S : Type) : Type :=
| Returned (status : Z) (s : S)
| Undefined
| OutOfFuel.

Arguments Returned {S} status s.
Arguments Undefined {S}.
Arguments OutOfFuel {S}.

(** The constants of the header file. *)

Definition PARSE_CTREES_MAX_NCOLS : Z := 128.
Definition PARSE_CTREES_MAX_COLNAME_LEN : Z := 64.
Definition PARSE_CTREES_MAXBUFSIZE : Z := 1024.

(** [enum parse_numeric_types].  A C enumeration object can hold any [int],
    so the tag is an integer and the enumerators are constants. *)

Definition I32 : Z := 0.
Definition I64 : Z := 1.
Definition U32 : Z := 2.
Definition U64 : Z := 3.
Definition F32 : Z := 4.
Definition F64 : Z := 5.
Definition num_numeric_types : Z := 6.

(** ** The C library functions the header relies on *)

Definition NUL : ascii := Ascii.zero.
Definition newline : ascii := "010"%char.

Definition is_delim (delim : string) (c : ascii) : bool :=
  existsb (Ascii.eqb c) (list_ascii_of_string delim).

(** [split_at_delim delim s] is one step of [strsep] on a non-NULL string:
    the token up to the first delimiter and the new value of [*stringp]
    ([None] is NULL: no delimiter was found). *)
Fixpoint split_at_delim (delim s : string) : string * option string :=
  match s with
  | EmptyString => (EmptyString, None)
  | String c s' =>
      if is_delim delim c then (EmptyString, Some s')
      else let (t, r) := split_at_delim delim s' in (String c t, r)
  end.

(** [strsep(&string, delim)]: the returned token ([None] is NULL) and the
    updated [string]. *)
Definition strsep (stringp : option string) (delim : string)
  : option string * option string :=
  match stringp with
  | None => (None, None)
  | Some s => let (t, r) := split_at_delim delim s in (Some t, r)
  end.

(** [isspace] in the C locale. *)
Definition isspace (c : ascii) : bool :=
  let n := nat_of_ascii c in
  (Nat.eqb n 32 || (Nat.leb 9 n && Nat.leb n 13))%bool.

Definition isdigit (c : ascii) : bool :=
  let n := nat_of_ascii c in (Nat.leb 48 n && Nat.leb n 57)%bool.

Definition digit_value (c : ascii) : Z := Z.of_nat (nat_of_ascii c) - 48.

Fixpoint skip_spaces (s : string) : string :=
  match s with
  | String c s' => if isspace c then skip_spaces s' else s
  | EmptyString => s
  end.

Fixpoint digits (s : string) (acc : Z) : Z :=
  match s with
  | String c s' => if isdigit c then digits s' (10 * acc + digit_value c) else acc
  | EmptyString => acc
  end.

(** The mathematical value of the longest prefix "spaces, optional sign,
    decimal digits" of [s] (0 when there are no digits). *)
Definition decimal_prefix (s : string) : Z :=
  match skip_spaces s with
  | String "-" s' => - digits s' 0
  | String "+" s' => digits s' 0
  | s' => digits s' 0
  end.

Definition clamp (lo hi z : Z) : Z := Z.max lo (Z.min hi z).

(** [strtol(s, NULL, 10)] and [strtoll(s, NULL, 10)]: out-of-range values
    are clamped to [LONG_MIN], [LONG_MAX]. *)
Definition strtol (s : string) : Z := clamp (- 2 ^ 63) (2 ^ 63 - 1) (decimal_prefix s).
Definition strtoll (s : string) : Z := clamp (- 2 ^ 63) (2 ^ 63 - 1) (decimal_prefix s).

(** The conversion [(int32_t) x] of a [long]: reduction modulo [2^32]. *)
Definition to_int32 (z : Z) : Z := (z + 2 ^ 31) mod 2 ^ 32 - 2 ^ 31.

(** [atoi(s)]: [(int) strtol(s, NULL, 10)], which is how glibc defines it;
    a value outside the range of [int], for which the C standard leaves the
    behaviour undefined, is reduced modulo [2^32]. *)
Definition atoi (s : string) : Z := to_int32 (strtol s).

Definition tolower (c : ascii) : ascii :=
  let n := nat_of_ascii c in
  if (Nat.leb 65 n && Nat.leb n 90)%bool then ascii_of_nat (n + 32) else c.

(** [strcasecmp(a, b)]: the difference of the first pair of characters that
    differ after lower-casing, 0 when there is none. *)
Fixpoint strcasecmp (a b : string) : Z :=
  match a, b with
  | EmptyString, EmptyString => 0
  | EmptyString, String d _ => - Z.of_nat (nat_of_ascii (tolower d))
  | String c _, EmptyString => Z.of_nat (nat_of_ascii (tolower c))
  | String c a', String d b' =>
      if Ascii.eqb (tolower c) (tolower d) then strcasecmp a' b'
      else Z.of_nat (nat_of_ascii (tolower c)) - Z.of_nat (nat_of_ascii (tolower d))
  end.

(** The C string stored in a [char] array: the characters before the first
    NUL; [None] when the array holds no NUL (reading it as a string runs
    past its end). *)
Fixpoint cstring (a : list ascii) : option string :=
  match a with
  | [] => None
  | c :: a' =>
      if Ascii.eqb c NUL then Some EmptyString
      else option_map (String c) (cstring a')
  end.

(** ** Destination storage *)

(** A converted number.  The floating-point results of [strtof] and
    [strtod] are kept as the text they were converted from. *)
Inductive value : Type :=
| Vint32 (z : Z)
| Vint64 (z : Z)
| Vfloat (text : string)
| Vdouble (text : string).

Definition sizeof (v : value) : nat :=
  match v with
  | Vint32 _ | Vfloat _ => 4
  | Vint64 _ | Vdouble _ => 8
  end.

(** One byte of destination storage: indeterminate, or the [i]-th byte of
    the object representation of a stored value. *)
Inductive memval : Type :=
| Mundef
| Mbyte (v : value) (i : nat).

Definition encode (v : value) : list memval := map (Mbyte v) (seq 0 (sizeof v)).

(** [*((T * ) dest) = v] with [dest] at byte [pos] of the block [m]. *)
Definition store (m : list memval) (pos : Z) (v : value) : option (list memval) :=
  if ((0 <=? pos) && (pos + Z.of_nat (sizeof v) <=? Z.of_nat (List.length m)))%bool
  then Some (firstn (Z.to_nat pos) m ++ encode v
             ++ skipn (Z.to_nat pos + sizeof v) m)
  else None.

(** One destination group: the block [*base_ptrs[i]] the caller's pointer
    designates, and [base_element_size[i]]. *)
Record base_ptr : Type := {
  block : list memval;
  base_element_size : Z
}.

(** [struct base_ptr_info]; [num_base_ptrs] is the length of [base_ptrs]. *)
Record base_ptr_info : Type := {
  base_ptrs : list base_ptr;
  N : Z;
  nallocated : Z
}.

Definition num_base_ptrs (b : base_ptr_info) : Z := Z.of_nat (List.length (base_ptrs b)).

(** One resolved column: entry [i] of the four parallel arrays of
    [struct ctrees_column_to_ptr]; [ncols] is the length of the list. *)
Record column : Type := {
  column_number : Z;
  field_types : Z;
  dest_offset_to_element : Z;
  base_ptr_idx : Z
}.

Definition ctrees_column_to_ptr : Type := list column.

Definition ncols (column_info : ctrees_column_to_ptr) : Z :=
  Z.of_nat (List.length column_info).

(** ** [reallocate_base_ptrs] *)

Section Allocator.

(** [realloc_ok i size] tells whether the call of [realloc] that asks for
    [size] bytes for group [i] returns a block ([true]) or NULL. *)
Variable realloc_ok : nat -> Z -> bool.

(** The block a successful [realloc(p, size)] returns: the old contents up
    to the smaller of the two sizes, the rest indeterminate. *)
Definition realloc (m : list memval) (size : Z) : list memval :=
  firstn (Z.to_nat size) m ++ repeat Mundef (Z.to_nat size - List.length m).

(** The block that [*this_ptr] still refers to after
    [realloc( *this_ptr, size)] has returned NULL.  For a request of at
    least one byte the old block is left as it was.  For a request of 0
    bytes [realloc] has freed the old block before it returns NULL: the
    caller's pointer dangles and no byte can be accessed through it any
    more, which is a block without bytes. *)
Definition realloc_null (m : list memval) (size : Z) : list memval :=
  if size =? 0 then [] else m.

(** The loop over the groups, from group [i] on; [false] is the early
    [return EXIT_FAILURE], which leaves [*this_ptr] as it is after the call
    that returned NULL. *)
Fixpoint reallocate_loop (i : nat) (ptrs : list base_ptr) (new_N : Z)
  : bool * list base_ptr :=
  match ptrs with
  | [] => (true, [])
  | this_ptr :: rest =>
      let size := base_element_size this_ptr in
      let bytes := (size * new_N) mod 2 ^ 64 in
      if realloc_ok i bytes then
        let tmp := realloc (block this_ptr) bytes in
        let (ok, rest') := reallocate_loop (S i) rest new_N in
        (ok, {| block := tmp; base_element_size := size |} :: rest')
      else
        (false,
         {| block := realloc_null (block this_ptr) bytes;
            base_element_size := size |} :: rest)
  end.

Definition reallocate_base_ptrs (base_info : base_ptr_info) (new_N : Z)
  : outcome base_ptr_info :=
  match reallocate_loop 0 (base_ptrs base_info) new_N with
  | (true, ptrs) =>
      Returned EXIT_SUCCESS
        {| base_ptrs := ptrs; N := N base_info; nallocated := new_N |}
  | (false, ptrs) =>
      Returned EXIT_FAILURE
        {| base_ptrs := ptrs; N := N base_info; nallocated := nallocated base_info |}
  end.

(** ** [parse_line_ctrees] *)

(** The local variables of the tokenizer: [icol], [string] and [token]
    ([None] is NULL). *)
Record cursor : Type := {
  icol : Z;
  string_ : option string;
  token : option string
}.

(** The inner loop
    [do { token = strsep(&string, " "); XASSERT(token != NULL); }
     while (token[0] == '\0' || token[0] == ' ')]
    started with [string] pointing at [s]: the token it leaves and the new
    [string], or [None] when the assertion fails.  The recursion follows the
    string: an empty token is returned exactly when [s] starts with the
    delimiter, and the loop then runs again on the rest
    (see [skip_empty_tokens_unfold]). *)
Fixpoint next_token (s : string) : option (string * option string) :=
  match s with
  | EmptyString => None
  | String c s' =>
      if Ascii.eqb c " " then next_token s'
      else Some (split_at_delim " " s)
  end.

Definition skip_empty_tokens (stringp : option string)
  : option (string * option string) :=
  match stringp with
  | None => None
  | Some s => next_token s
  end.

(** [while (icol < wanted_col) { do ... while (...); icol++; }], which runs
    [n = wanted_col - icol] times unless an assertion fails. *)
Fixpoint advance (n : nat) (cur : cursor) : option cursor :=
  match n with
  | O => Some cur
  | S n' =>
      match skip_empty_tokens (string_ cur) with
      | None => None
      | Some (t, r) =>
          advance n' {| icol := icol cur + 1; string_ := r; token := Some t |}
      end
  end.

(** The [switch (wanted_type)]: the converted value, or [None] for the
    [default:] branch. *)
Definition convert (wanted_type : Z) (token : string) : option value :=
  if wanted_type =? F32 then Some (Vfloat token)
  else if wanted_type =? F64 then Some (Vdouble token)
  else if wanted_type =? I32 then Some (Vint32 (to_int32 (strtol token)))
  else if wanted_type =? I64 then Some (Vint64 (strtoll token))
  else None.

Definition set_block (ptrs : list base_ptr) (idx : nat) (m : list memval)
  : list base_ptr :=
  match nth_error ptrs idx with
  | Some p =>
      firstn idx ptrs
      ++ {| block := m; base_element_size := base_element_size p |}
      :: skipn (S idx) ptrs
  | None => ptrs
  end.

(** One iteration of [for (int i = 0; i < column_info->ncols; i++)].
    [Returned EXIT_SUCCESS] means that the iteration reached its end. *)
Definition parse_column (c : column) (cur : cursor) (b : base_ptr_info)
  : outcome (cursor * base_ptr_info) :=
  let wanted_col := column_number c in
  let idx := base_ptr_idx c in
  if negb (idx <? num_base_ptrs b) then Returned EXIT_FAILURE (cur, b)
  else if idx <? 0 then Undefined
  else
    match nth_error (base_ptrs b) (Z.to_nat idx) with
    | None => Undefined
    | Some p =>
        let base_ptr_stride := base_element_size p in
        let dest_offset := dest_offset_to_element c in
        if negb (4 <=? base_ptr_stride) then Returned EXIT_FAILURE (cur, b)
        else if negb (dest_offset <=? base_ptr_stride)
        then Returned EXIT_FAILURE (cur, b)
        else
          let dest := N b * base_ptr_stride + dest_offset in
          let wanted_type := field_types c in
          match advance (Z.to_nat (wanted_col - icol cur)) cur with
          | None => Returned EXIT_FAILURE (cur, b)
          | Some cur' =>
              match token cur' with
              | None | Some EmptyString => Returned EXIT_FAILURE (cur', b)
              | Some tok =>
                  match convert wanted_type tok with
                  | None => Returned EXIT_FAILURE (cur', b)
                  | Some v =>
                      match store (block p) dest v with
                      | None => Undefined
                      | Some m =>
                          Returned EXIT_SUCCESS
                            (cur',
                             {| base_ptrs := set_block (base_ptrs b) (Z.to_nat idx) m;
                                N := N b + 1;
                                nallocated := nallocated b |})
                      end
                  end
              end
          end
    end.

Fixpoint parse_columns (cols : list column) (cur : cursor) (b : base_ptr_info)
  : outcome base_ptr_info :=
  match cols with
  | [] => Returned EXIT_SUCCESS b
  | c :: rest =>
      match parse_column c cur b with
      | Returned status (cur', b') =>
          if status =? EXIT_SUCCESS then parse_columns rest cur' b'
          else Returned status b'
      | Undefined => Undefined
      | OutOfFuel => OutOfFuel
      end
  end.

Definition in_int64 (z : Z) : bool := ((- 2 ^ 63 <=? z) && (z <? 2 ^ 63))%bool.

Definition parse_line_ctrees (linebuf : string) (column_info : ctrees_column_to_ptr)
    (b : base_ptr_info) : outcome base_ptr_info :=
  let after_growth :=
    if nallocated b =? N b then
      let new_N := 2 * N b in
      if in_int64 new_N then reallocate_base_ptrs b new_N else Undefined
    else Returned EXIT_SUCCESS b in
  match after_growth with
  | Returned status b1 =>
      if status =? EXIT_SUCCESS
      then parse_columns column_info
             {| icol := -1; string_ := Some linebuf; token := None |} b1
      else Returned status b1
  | Undefined => Undefined
  | OutOfFuel => OutOfFuel
  end.

End Allocator.

(** ** [match_column_name] *)

(** The inner loop over the file's column names, from column [j] on: the
    position of the first name equal to [wanted_colname] up to case, or the
    initial value [-1] of [columns[i]]. *)
Fixpoint find_column (wanted_colname : string) (names : list string) (j : Z) : Z :=
  match names with
  | [] => -1
  | file_colname :: rest =>
      if strcasecmp wanted_colname file_colname =? 0 then j
      else find_column wanted_colname rest (j + 1)
  end.

Definition match_column_name (wanted_columns names : list string) : list Z :=
  map (fun wanted_colname => find_column wanted_colname names 0) wanted_columns.

(** ** [parse_header_ctrees] *)

(** Entry [i] of the caller's four request arrays [column_names],
    [field_types], [base_ptr_idx] and [dest_offset_to_element], which the
    function only ever reads and exchanges at a common index; [nfields] is
    the length of the list. *)
Record request : Type := {
  req_column_name : string;
  req_field_type : Z;
  req_base_ptr_idx : Z;
  req_dest_offset_to_element : Z
}.

(** What the function can change: the caller's request arrays and
    [*column_info]. *)
Record header_state : Type := {
  requests : list request;
  column_info : ctrees_column_to_ptr
}.

(** The characters [fgets] stores before the terminator, reading at most [n]
    of them and stopping after a newline. *)
Fixpoint fgets_chars (n : nat) (content : list ascii) : list ascii :=
  match n, content with
  | S n', c :: rest =>
      if Ascii.eqb c newline then [c] else c :: fgets_chars n' rest
  | _, _ => []
  end.

(** [fgets(linebuf, size, fp)] on a freshly opened file: the array it
    fills, or [None] (NULL) at end of file. *)
Definition fgets (size : nat) (content : list ascii) : option (list ascii) :=
  match fgets_chars (size - 1) content with
  | [] => None
  | chars => Some (chars ++ [NUL])
  end.

(** The fields of [s] between the characters for which [sep] holds. *)
Fixpoint split_on (sep : ascii -> bool) (s : string) : list string :=
  match s with
  | EmptyString => [EmptyString]
  | String c s' =>
      if sep c then EmptyString :: split_on sep s'
      else
        match split_on sep s' with
        | t :: ts => String c t :: ts
        | [] => [String c EmptyString]
        end
  end.

(** The tokens that the loop
    [while ((token = strsep(&string, delim)) != NULL)] sees, in order, when
    [string] starts at [s] (see [strsep_tokens_unfold]). *)
Definition strsep_tokens (delim s : string) : list string :=
  split_on (is_delim delim) s.

Definition header_delims : string := " ," .
Definition delimiters : string :=
  String " " (String "," (String newline (String "#" EmptyString))).

(** The body of the second tokenizing loop for a non-empty [token], with
    [names] holding [totncols] entries: the name copied to [names[col]].
    Writing [names[col]] with [col >= totncols] is out of bounds. *)
Definition header_token (totncols : Z) (token : string) (col : Z) : outcome string :=
  let totlen := Z.of_nat (String.length token) in
  if negb ((0 <? totlen) && (totlen <? PARSE_CTREES_MAX_COLNAME_LEN))%bool
  then Returned EXIT_FAILURE EmptyString
  else
    let (colname, after_paren) := split_at_delim "(" token in
    let out_of_bounds := negb (col <? totncols) in
    if (out_of_bounds && negb (String.eqb colname EmptyString))%bool then Undefined
    else
      let colnum_ok :=
        match after_paren with
        | Some rest =>
            match split_at_delim ")" rest with
            | (number, Some _) => atoi number =? col
            | (_, None) => true
            end
        | None => true
        end in
      if negb colnum_ok then Returned EXIT_FAILURE EmptyString
      else if out_of_bounds then Undefined
      else Returned EXIT_SUCCESS colname.

(** The second tokenizing loop and the assertion [col == totncols] after
    it; [names] are the entries filled so far. *)
Fixpoint header_names (totncols : Z) (tokens : list string) (col : Z)
    (names : list string) : outcome (list string) :=
  match tokens with
  | [] =>
      if col =? totncols then Returned EXIT_SUCCESS names
      else Returned EXIT_FAILURE names
  | token :: rest =>
      if Nat.eqb (String.length token) 0 then header_names totncols rest col names
      else
        match header_token totncols token col with
        | Returned status colname =>
            if status =? EXIT_SUCCESS
            then header_names totncols rest (col + 1) (names ++ [colname])
            else Returned status names
        | Undefined => Undefined
        | OutOfFuel => OutOfFuel
        end
  end.

(** Modelled from the spec: the macros [SGLIB_ARRAY_QUICK_SORT] and
    [SGLIB_ARRAY_ELEMENTS_EXCHANGER] come from [sglib.h], which is not among
    the sources.  The spec says of this step: "Sort the resolved entries
    ascending by file column index (stable with respect to ties), carrying
    each entry's numeric type, destination selector, and byte offset along
    with it."  The header's own [MULTIPLE_ARRAY_EXCHANGER] exchanges
    positions [i] and [j] of [matched_columns] and of the caller's four
    arrays together, so the sort acts on the list of pairs (matched column,
    request).  [sort_insert] puts one pair into a sorted list, before the
    first pair whose column is not smaller. *)
Fixpoint sort_insert (x : Z * request) (l : list (Z * request))
  : list (Z * request) :=
  match l with
  | [] => [x]
  | y :: l' => if fst x <=? fst y then x :: l else y :: sort_insert x l'
  end.

(** Modelled from the spec: the call
    [SGLIB_ARRAY_QUICK_SORT(int, matched_columns, nfields,
    SGLIB_NUMERIC_COMPARATOR, MULTIPLE_ARRAY_EXCHANGER)], whose macro is
    missing from the sources, as the stable ascending sort the spec
    describes. *)
Fixpoint SGLIB_ARRAY_QUICK_SORT (l : list (Z * request)) : list (Z * request) :=
  match l with
  | [] => []
  | x :: l' => sort_insert x (SGLIB_ARRAY_QUICK_SORT l')
  end.

(** The final loop: the entries with [matched_columns[i] != -1], in array
    order. *)
Fixpoint assign_found (sorted : list (Z * request)) : ctrees_column_to_ptr :=
  match sorted with
  | [] => []
  | (matched, r) :: rest =>
      if matched =? -1 then assign_found rest
      else
        {| column_number := matched;
           field_types := req_field_type r;
           dest_offset_to_element := req_dest_offset_to_element r;
           base_ptr_idx := req_base_ptr_idx r |} :: assign_found rest
  end.

(** The part of the function between [fopen] and the assertion
    [col == totncols]: the column names of the header line, in file order.
    [file] is the content of the file named [filename], [None] when it
    cannot be opened.  [calloc] and [strdup] are taken to succeed. *)
Definition header_column_names (file : option (list ascii)) : outcome (list string) :=
  match file with
  | None => Returned EXIT_FAILURE []
  | Some content =>
      match fgets (Z.to_nat PARSE_CTREES_MAXBUFSIZE) content with
      | None => Returned EXIT_FAILURE []
      | Some linebuf =>
          match cstring linebuf with
          | None => Undefined
          | Some EmptyString => Returned EXIT_FAILURE []
          | Some (String c0 _ as line) =>
              if negb (Ascii.eqb c0 "#") then Returned EXIT_FAILURE []
              else
                let totncols :=
                  Z.of_nat (List.length (strsep_tokens header_delims line)) in
                header_names totncols (strsep_tokens delimiters line) 0 []
          end
      end
  end.

Definition parse_header_ctrees (file : option (list ascii)) (st : header_state)
  : outcome header_state :=
  let nfields := Z.of_nat (List.length (requests st)) in
  if nfields >? PARSE_CTREES_MAX_NCOLS then Returned EXIT_FAILURE st
  else
    match header_column_names file with
    | Returned status names =>
        if status =? EXIT_SUCCESS then
          let matched_columns :=
            match_column_name (map req_column_name (requests st)) names in
          let sorted :=
            SGLIB_ARRAY_QUICK_SORT (combine matched_columns (requests st)) in
          Returned EXIT_SUCCESS
            {| requests := map snd sorted; column_info := assign_found sorted |}
        else Returned status st
    | Undefined => Undefined
    | OutOfFuel => OutOfFuel
    end.

(** ** [read_single_tree_ctrees] *)

Section Reader.

Variable realloc_ok : nat -> Z -> bool.

(** The indeterminate initial contents of the automatic arrays
    [first_tree_line] and [read_buffer], byte by byte, and of [linebuf],
    which is declared afresh for each row: [stack_linebuf k] is its content
    when [k] rows have been handed to the line parser before. *)
Variable stack_first_tree_line : nat -> ascii.
Variable stack_read_buffer : nat -> ascii.
Variable stack_linebuf : nat -> nat -> ascii.

Definition num_chars_first_tree_line : nat := 30.
Definition sizeof_read_buffer : nat := Z.to_nat (4 * PARSE_CTREES_MAXBUFSIZE).
Definition to_read_bytes : nat := sizeof_read_buffer - 1.

Definition automatic_array (init : nat -> ascii) (size : nat) : list ascii :=
  map init (seq 0 size).

(** [pread(fd, buf, count, offset)] on a regular file: the bytes read, or
    [None] for the result -1.  [fd] is the file's content, [None] for a
    descriptor that cannot be read. *)
Definition pread (fd : option (list ascii)) (count : nat) (offset : Z)
  : option (list ascii) :=
  match fd with
  | None => None
  | Some file =>
      if offset <? 0 then None
      else Some (firstn count (skipn (Z.to_nat offset) file))
  end.

(** The bytes [data] copied to the start of the array [buf]. *)
Definition copy_into (buf data : list ascii) : list ascii :=
  data ++ skipn (List.length data) buf.

(** [for (i = 0; i < num_chars_first_tree_line; i++)
       { offset++; if (first_tree_line[i] == '\n') break; }] *)
Fixpoint skip_first_tree_line (first_tree_line : list ascii) (offset : Z) : Z :=
  match first_tree_line with
  | [] => offset
  | c :: rest =>
      if Ascii.eqb c newline then offset + 1
      else skip_first_tree_line rest (offset + 1)
  end.

(** The scanning loop
    [while (curr_pos < nbytes_read && *this != '\n') { ... }], with [n]
    the distance of [curr_pos] from [nbytes_read] and [this] an index into
    [read_buffer].  The result is the final [curr_pos] and whether the
    branch for ['#'] ran (setting [done = 1], [curr_pos = 0] and
    [keep_parsing = 0]); [None] when [*this] lies beyond the array. *)
Fixpoint scan_row (n : nat) (read_buffer : list ascii) (curr_pos this : nat)
  : option (nat * bool) :=
  match n with
  | O => Some (curr_pos, false)
  | S n' =>
      match nth_error read_buffer this with
      | None => None
      | Some c =>
          if Ascii.eqb c newline then Some (curr_pos, false)
          else if Ascii.eqb c "#" then Some (O, true)
          else scan_row n' read_buffer (S curr_pos) (S this)
      end
  end.

(** [read_buffer[i] = c]. *)
Definition set_char (buf : list ascii) (i : nat) (c : ascii) : list ascii :=
  firstn i buf ++ c :: skipn (S i) buf.

(** The variables that live across the iterations of
    [while (keep_parsing == 1)]; [handed] is not in the program: it records
    the text seen by each call of [parse_line_ctrees]. *)
Record chunk_state : Type := {
  read_buffer : list ascii;
  start : nat;
  bytes_processed : nat;
  done : bool;
  info : base_ptr_info;
  handed : list string
}.

Fixpoint parse_chunk (fuel : nat) (column_info : ctrees_column_to_ptr)
    (nbytes_read : nat) (s : chunk_state) : outcome chunk_state :=
  match fuel with
  | O => OutOfFuel
  | S fuel' =>
      match scan_row nbytes_read (read_buffer s) 0 (start s) with
      | None => Undefined
      | Some (curr_pos, marker) =>
          let done' := (done s || marker)%bool in
          if Nat.eqb curr_pos nbytes_read
          then Returned EXIT_SUCCESS
                 {| read_buffer := read_buffer s; start := start s;
                    bytes_processed := bytes_processed s; done := done';
                    info := info s; handed := handed s |}
          else
            let read_buffer' := set_char (read_buffer s) curr_pos NUL in
            let start' := (start s + (curr_pos + 1))%nat in
            let bytes_processed' := (bytes_processed s + (curr_pos + 1))%nat in
            if Nat.ltb (Z.to_nat PARSE_CTREES_MAXBUFSIZE) curr_pos then Undefined
            else
              let linebuf :=
                copy_into
                  (automatic_array (stack_linebuf (List.length (handed s)))
                     (Z.to_nat PARSE_CTREES_MAXBUFSIZE))
                  (firstn curr_pos read_buffer') in
              match cstring linebuf with
              | None => Undefined
              | Some line =>
                  match parse_line_ctrees realloc_ok line column_info (info s) with
                  | Returned status info' =>
                      let s' :=
                        {| read_buffer := read_buffer'; start := start';
                           bytes_processed := bytes_processed'; done := done';
                           info := info'; handed := handed s ++ [line] |} in
                      if negb (status =? EXIT_SUCCESS) then Returned status s'
                      else if marker then Returned EXIT_SUCCESS s'
                      else parse_chunk fuel' column_info nbytes_read s'
                  | Undefined => Undefined
                  | OutOfFuel => OutOfFuel
                  end
              end
      end
  end.

(** What a call leaves behind: [*base_ptr_info], and two things that the C
    function does not give back: the final value of its local [offset] and
    the rows handed to [parse_line_ctrees]. *)
Record tree_state : Type := {
  tree_info : base_ptr_info;
  tree_offset : Z;
  tree_handed : list string
}.

(** The loop [while (done == 0)]. *)
Fixpoint read_chunks (fuel : nat) (fd : option (list ascii))
    (column_info : ctrees_column_to_ptr) (buf : list ascii) (t : tree_state)
  : outcome tree_state :=
  match fuel with
  | O => OutOfFuel
  | S fuel' =>
      match pread fd to_read_bytes (tree_offset t) with
      | None => Returned EXIT_FAILURE t
      | Some data =>
          let nbytes_read := List.length data in
          if Nat.eqb nbytes_read 0 then Returned EXIT_SUCCESS t
          else
            match
              parse_chunk (S sizeof_read_buffer) column_info nbytes_read
                {| read_buffer := copy_into buf data; start := 0;
                   bytes_processed := 0; done := false;
                   info := tree_info t; handed := tree_handed t |}
            with
            | Returned status s =>
                let t1 :=
                  {| tree_info := info s; tree_offset := tree_offset t;
                     tree_handed := handed s |} in
                if negb (status =? EXIT_SUCCESS) then Returned status t1
                else if negb (Nat.leb (bytes_processed s) nbytes_read)
                then Returned EXIT_FAILURE t1
                else
                  let t2 :=
                    {| tree_info := info s;
                       tree_offset := tree_offset t + Z.of_nat (bytes_processed s);
                       tree_handed := handed s |} in
                  if done s then Returned EXIT_SUCCESS t2
                  else read_chunks fuel' fd column_info (read_buffer s) t2
            | Undefined => Undefined
            | OutOfFuel => OutOfFuel
            end
      end
  end.

(** [fuel] bounds the number of chunks read. *)
Definition read_single_tree_ctrees (fuel : nat) (fd : option (list ascii))
    (offset : Z) (column_info : ctrees_column_to_ptr) (b : base_ptr_info)
  : outcome tree_state :=
  let t0 := {| tree_info := b; tree_offset := offset; tree_handed := [] |} in
  if ncols column_info >? PARSE_CTREES_MAX_NCOLS then Returned EXIT_FAILURE t0
  else
    match pread fd num_chars_first_tree_line offset with
    | None => Returned EXIT_FAILURE t0
    | Some [] => Returned EXIT_FAILURE t0
    | Some data =>
        let first_tree_line :=
          copy_into
            (automatic_array stack_first_tree_line num_chars_first_tree_line)
            data in
        read_chunks fuel fd column_info
          (automatic_array stack_read_buffer sizeof_read_buffer)
          {| tree_info := b;
             tree_offset := skip_first_tree_line first_tree_line offset;
             tree_handed := [] |}
    end.

End Reader.

(** ** Notions used to state the properties *)

Definition nonempty (t : string) : bool := negb (String.eqb t EmptyString).

(** The non-empty fields of [s] between separators. *)
Definition words (sep : ascii -> bool) (s : string) : list string :=
  filter nonempty (split_on sep s).

Definition space_tokens (s : string) : list string :=
  words (fun c => Ascii.eqb c " ") s.

Definition whitespace_tokens (s : string) : list string := words isspace s.

(** No column of the header is called [wanted], up to case. *)
Definition absent (names : list string) (wanted : string) : bool :=
  forallb (fun file_colname => negb (strcasecmp wanted file_colname =? 0)) names.

(** The mapping entry of request [r] once resolved to file column [k]. *)
Definition resolved (k : Z) (r : request) : column :=
  {| column_number := k;
     field_types := req_field_type r;
     dest_offset_to_element := req_dest_offset_to_element r;
     base_ptr_idx := req_base_ptr_idx r |}.

(** The file column a request resolves to among [names], [-1] for none. *)
Definition resolve (names : list string) (r : request) : Z :=
  find_column (req_column_name r) names 0.

Definition status_of {S : Type} (o : outcome S) : option Z :=
  match o with
  | Returned status _ => Some status
  | _ => None
  end.

Definition state_of {S : Type} (o : outcome S) : option S :=
  match o with
  | Returned _ s => Some s
  | _ => None
  end.

(** The test [token[0] == '\0' || token[0] == ' '] of the do-while loop. *)
Definition starts_empty_or_space (token : string) : bool :=
  match token with
  | EmptyString => true
  | String c _ => Ascii.eqb c " "
  end.

Definition tokens_from (delim : string) (stringp : option string) : list string :=
  match stringp with
  | Some s => strsep_tokens delim s
  | None => []
  end.

(** Group [p] after a successful [realloc] for [new_N] elements. *)
Definition grown (new_N : Z) (p : base_ptr) : base_ptr :=
  {| block := realloc (block p) ((base_element_size p * new_N) mod 2 ^ 64);
     base_element_size := base_element_size p |}.

(** Group [p] after a [realloc] for [new_N] elements that returned NULL. *)
Definition refused (new_N : Z) (p : base_ptr) : base_ptr :=
  {| block := realloc_null (block p) ((base_element_size p * new_N) mod 2 ^ 64);
     base_element_size := base_element_size p |}.

(** The order of the sort, and the entries the final loop keeps. *)
Definition key_le (x y : Z * request) : Prop := fst x <= fst y.
Definition found (p : Z * request) : bool := negb (fst p =? -1).
Definition entry (p : Z * request) : column := resolved (fst p) (snd p).

(** [matched_columns] next to the caller's arrays, before the sort. *)
Definition paired (names : list string) (reqs : list request) : list (Z * request) :=
  map (fun r => (resolve names r, r)) reqs.

Definition fields_from (stringp : option string) : list string :=
  match stringp with
  | Some s => split_on (fun c => Ascii.eqb c " ") s
  | None => []
  end.

(** The space-separated tokens still ahead of the tokenizer. *)
Definition words_from (stringp : option string) : list string :=
  match stringp with
  | Some s => space_tokens s
  | None => []
  end.

(** Two tokenizer states that stand at the same column with the same
    token, and have the same tokens ahead up to file column [k]. *)
Definition agree (k : Z) (cur1 cur2 : cursor) : Prop :=
  icol cur1 = icol cur2 /\ token cur1 = token cur2 /\
  firstn (Z.to_nat (k - icol cur1)) (words_from (string_ cur1))
  = firstn (Z.to_nat (k - icol cur1)) (words_from (string_ cur2)).

(** ** Inputs used below *)

Definition always_ok : nat -> Z -> bool := fun _ _ => true.
Definition never_ok : nat -> Z -> bool := fun _ _ => false.

Definition fresh_group (bytes : nat) (size : Z) : base_ptr :=
  {| block := repeat Mundef bytes; base_element_size := size |}.

Definition mk_column (n type offset idx : Z) : column :=
  {| column_number := n; field_types := type;
     dest_offset_to_element := offset; base_ptr_idx := idx |}.

(** One group of records of two [int32_t] fields with room for four rows. *)
Definition pair_records : base_ptr_info :=
  {| base_ptrs := [fresh_group 32 8]; N := 0; nallocated := 4 |}.

(** File columns 0 and 1 as the two fields of a record. *)
Definition two_fields : ctrees_column_to_ptr :=
  [mk_column 0 I32 0 0; mk_column 1 I32 4 0].

(** One array of [int32_t] with room for eight rows. *)
Definition int_array : base_ptr_info :=
  {| base_ptrs := [fresh_group 32 4]; N := 0; nallocated := 8 |}.

Definition first_as (type : Z) : ctrees_column_to_ptr := [mk_column 0 type 0 0].

(** One array of [int32_t] for which nothing has been allocated yet. *)
Definition empty_array : base_ptr_info :=
  {| base_ptrs := [fresh_group 0 4]; N := 0; nallocated := 0 |}.

(** One array of [int32_t] with room for one row. *)
Definition one_row_array : base_ptr_info :=
  {| base_ptrs := [fresh_group 4 4]; N := 0; nallocated := 1 |}.

(** Two arrays holding one row each, and an allocator that serves the
    first group only. *)
Definition two_arrays : base_ptr_info :=
  {| base_ptrs :=
       [ {| block := encode (Vint32 7); base_element_size := 4 |};
         {| block := encode (Vint64 9); base_element_size := 8 |} ];
     N := 1; nallocated := 1 |}.

Definition first_group_only : nat -> Z -> bool := fun i _ => Nat.eqb i 0.

(** [two_arrays] after the attempt to grow it to two rows with
    [first_group_only]. *)
Definition two_arrays_half_grown : base_ptr_info :=
  {| base_ptrs :=
       [ {| block := encode (Vint32 7) ++ repeat Mundef 4; base_element_size := 4 |};
         {| block := encode (Vint64 9); base_element_size := 8 |} ];
     N := 1; nallocated := 1 |}.

(** A file whose header names the columns [a], [b] and [c]. *)
Definition abc_file : option (list ascii) :=
  Some (list_ascii_of_string "#a b(1) c(2)" ++ newline :: list_ascii_of_string "#tree 0").

Definition mk_request (name : string) (type idx offset : Z) : request :=
  {| req_column_name := name; req_field_type := type;
     req_base_ptr_idx := idx; req_dest_offset_to_element := offset |}.

(** [c] requested before [a]. *)
Definition ask_c_a : header_state :=
  {| requests := [mk_request "c" I32 0 0; mk_request "a" I64 1 0];
     column_info := [] |}.

Definition ask_c_a_after : header_state :=
  {| requests := [mk_request "a" I64 1 0; mk_request "c" I32 0 0];
     column_info := [mk_column 0 I64 0 1; mk_column 2 I32 0 0] |}.

(** Column [c] requested twice, with two types and two destinations. *)
Definition ask_c_a_c : header_state :=
  {| requests := [mk_request "c" I32 0 0; mk_request "a" I64 1 0;
                  mk_request "C" F64 2 8];
     column_info := [] |}.

Definition ask_c_a_c_after : header_state :=
  {| requests := [mk_request "a" I64 1 0; mk_request "c" I32 0 0;
                  mk_request "C" F64 2 8];
     column_info := [mk_column 0 I64 0 1; mk_column 2 I32 0 0;
                     mk_column 2 F64 8 2] |}.

(** A request for a column [zz] that the header does not have. *)
Definition ask_a_zz_c : header_state :=
  {| requests := [mk_request "a" I32 0 0; mk_request "zz" I32 0 4;
                  mk_request "c" I32 0 8];
     column_info := [] |}.

(** File column 1 as the only mapped column. *)
Definition second_column : ctrees_column_to_ptr := [mk_column 1 I32 0 0].

(** The row [1<TAB>2 3], and the row [1 2 3]. *)
Definition tab_row : string := String "1" (String "009" "2 3").
Definition space_row : string := "1 2 3".

(** File columns 0 and 2 as consecutive array elements. *)
Definition first_and_third : ctrees_column_to_ptr :=
  [mk_column 0 I32 0 0; mk_column 2 I32 0 0].

(** Automatic arrays that happen to be filled with zero bytes. *)
Definition zeroed : nat -> ascii := fun _ => NUL.
Definition zeroed_linebuf : nat -> nat -> ascii := fun _ _ => NUL.

(** A [linebuf] that occupies the same storage for every row, so that
    after a first row [1 2] it still holds that text. *)
Definition reused_linebuf : nat -> nat -> ascii :=
  fun k i =>
    match k with
    | O => NUL
    | S _ => nth i (list_ascii_of_string "1 2") NUL
    end.

Definition lines (rows : list string) : list ascii :=
  flat_map (fun row => list_ascii_of_string row ++ [newline]) rows.

(** One tree block of two rows. *)
Definition two_rows_file : option (list ascii) :=
  Some (lines ["#tree 1"; "1 2"; "3 4"]).

(** Two tree blocks of one row each; the marker line of the second block
    starts at byte 12. *)
Definition two_trees_file : option (list ascii) :=
  Some (lines ["#tree 1"; "1 2"; "#tree 2"; "3 4"]).

(** ** Notions for the further properties *)

(** The element sizes of the groups, in order. *)
Definition sizes (b : base_ptr_info) : list Z :=
  map base_element_size (base_ptrs b).

(** The state in which the columns of a row are parsed: [b] itself, or [b]
    with every group resized for [2 * N b] rows when the row counter has
    reached the capacity. *)
Definition grow_if_full (b : base_ptr_info) : base_ptr_info :=
  if nallocated b =? N b then
    {| base_ptrs := map (grown (2 * N b)) (base_ptrs b);
       N := N b; nallocated := 2 * N b |}
  else b.

(** The tokenizer stands at file column [icol] of the row whose
    space-separated tokens are [toks]: the tokens after that column are
    still ahead, and [token] is the token of that column. *)
Definition at_column (toks : list string) (cur : cursor) : Prop :=
  -1 <= icol cur < Z.of_nat (List.length toks)
  /\ words_from (string_ cur) = skipn (Z.to_nat (icol cur + 1)) toks
  /\ token cur =
       (if icol cur <? 0 then None else nth_error toks (Z.to_nat (icol cur))).

(** What one mapping entry does to the storage, in terms of the row's
    tokens: with the tokenizer at column [icol], the token of column
    [max icol (column_number c)] is converted and stored in the entry's
    group at row [N b], and the row counter moves on. *)
Definition write_token (toks : list string) (st : option (Z * base_ptr_info))
    (c : column) : option (Z * base_ptr_info) :=
  match st with
  | None => None
  | Some (at_col, b) =>
      let i := Z.max at_col (column_number c) in
      if i <? 0 then None
      else
        match nth_error toks (Z.to_nat i),
              nth_error (base_ptrs b) (Z.to_nat (base_ptr_idx c)) with
        | Some tok, Some p =>
            match convert (field_types c) tok with
            | Some v =>
                match
                  store (block p)
                    (N b * base_element_size p + dest_offset_to_element c) v
                with
                | Some m =>
                    Some (i,
                          {| base_ptrs :=
                               set_block (base_ptrs b) (Z.to_nat (base_ptr_idx c)) m;
                             N := N b + 1;
                             nallocated := nallocated b |})
                | None => None
                end
            | None => None
            end
        | _, _ => None
        end
  end.

(** The rows of [b0] below its row counter are found unchanged in [b], whose
    row counter is not smaller. *)
Definition committed_kept (b0 b : base_ptr_info) : Prop :=
  N b0 <= N b /\
  forall i p k x,
    nth_error (base_ptrs b0) i = Some p ->
    Z.of_nat k < N b0 * base_element_size p ->
    nth_error (block p) k = Some x ->
    exists p',
      nth_error (base_ptrs b) i = Some p' /\
      base_element_size p' = base_element_size p /\
      nth_error (block p') k = Some x.

(** ** Further inputs *)

(** One array of [int32_t] holding one row, with no room left; and the same
    after the row [20] has been parsed. *)
Definition one_row_written : base_ptr_info :=
  {| base_ptrs := [ {| block := encode (Vint32 10); base_element_size := 4 |} ];
     N := 1; nallocated := 1 |}.

Definition two_rows_written : base_ptr_info :=
  {| base_ptrs :=
       [ {| block := encode (Vint32 10) ++ encode (Vint32 20);
            base_element_size := 4 |} ];
     N := 2; nallocated := 2 |}.

(** A mapping entry that passes the checks of [parse_line_ctrees], for
    groups of element sizes [sz]: its group exists, the stride is at least 4
    bytes, the byte offset is at most the stride, and the type is one of the
    four that the dispatch converts. *)
Definition valid_entry (sz : list Z) (c : column) : Prop :=
  0 <= base_ptr_idx c /\
  (exists size,
     nth_error sz (Z.to_nat (base_ptr_idx c)) = Some size /\
     4 <= size /\ dest_offset_to_element c <= size) /\
  (field_types c = I32 \/ field_types c = I64 \/
   field_types c = F32 \/ field_types c = F64).

(** [int_array] after the row [1 2.5 3 4 5] with file columns 0 and 2
    mapped. *)
Definition first_and_third_written : base_ptr_info :=
  {| base_ptrs :=
       [ {| block := encode (Vint32 1) ++ encode (Vint32 3) ++ repeat Mundef 24;
            base_element_size := 4 |} ];
     N := 2; nallocated := 8 |}.

(** The characters that end a column name in the header line: the
    delimiters of the second tokenizing loop and the opening parenthesis. *)
Definition name_stops : string := String "(" delimiters.

(** No character of [s] satisfies [sep]. *)
Definition free_of (sep : ascii -> bool) (s : string) : Prop :=
  forall c, In c (list_ascii_of_string s) -> sep c = false.

(** A name that fits its array and holds no character that ends a name. *)
Definition name_shape (n : string) : Prop :=
  Z.of_nat (String.length n) < PARSE_CTREES_MAX_COLNAME_LEN /\
  free_of (is_delim name_stops) n.

(** The marker line of a block, without its newline, and a last row that
    no newline ends. *)
Definition tree_marker : list ascii := list_ascii_of_string "#tree 1".
Definition open_row : list ascii := list_ascii_of_string "1 2".

(** A character that the scan of a row passes over: neither a newline nor
    the marker. *)
Definition passed_over (c : ascii) : Prop := c <> newline /\ c <> "#"%char.

(** A chunk that fills [read_buffer]: a first row [1] and, after its
    newline, the start of a row of more than 4093 characters. *)
Definition long_row : list ascii := repeat "2"%char 4093.

(** ** Header lines *)

(** The characters that a column name and an index suffix of a well-formed
    header line do not contain: NUL, the parentheses, and the delimiters. *)
Definition header_stops : string := String NUL (String ")" name_stops).

(** One column of a header line: its name and, when it has one, the text
    of its parenthesized index. *)
Definition column_text (e : string * option string) : string :=
  match snd e with
  | None => fst e
  | Some d => fst e ++ String "(" (d ++ String ")" EmptyString)
  end.

(** The line made of ['#'], the [texts] separated by single spaces, and a
    newline. *)
Definition header_text (texts : list string) : string :=
  String "#" (String.concat " " texts ++ String newline EmptyString).

(** The header line of the columns [es]. *)
Definition header_line (es : list (string * option string)) : string :=
  header_text (map column_text es).

(** The characters that end a token of the header line or the line itself. *)
Definition line_stops : string := String NUL delimiters.

Definition entry_ok (e : string * option string) : Prop :=
  fst e <> EmptyString /\
  free_of (is_delim header_stops) (fst e) /\
  (forall d, snd e = Some d -> free_of (is_delim header_stops) d) /\
  Z.of_nat (String.length (column_text e)) < PARSE_CTREES_MAX_COLNAME_LEN.

(** The header line of [abc_file]: [#a b(1) c(2)]. *)
Definition abc_columns : list (string * option string) :=
  [("a", None); ("b", Some "1"); ("c", Some "2")].

(** An empty field of a header line: what lies between two adjacent
    spaces, between ['#'] and a space, or between a space and the newline. *)
Definition empty_field : string * option string := (EmptyString, None).

(** * Properties *)

Ltac fold_status := unfold EXIT_SUCCESS, EXIT_FAILURE in *.

Ltac case_match :=
  match goal with
  | H : context [match ?x with _ => _ end] |- _ => destruct x eqn:?
  | H : context [if ?x then _ else _] |- _ => destruct x eqn:?
  end.

(** ** The structural loops agree with the C loops *)

Lemma is_delim_space (c : ascii) : is_delim " " c = Ascii.eqb c " ".
Proof. unfold is_delim; simpl. now rewrite orb_false_r. Qed.

(** [skip_empty_tokens] satisfies the equation of the do-while loop: one
    call of [strsep], the assertion, and another round when the token is
    empty. *)
Lemma skip_empty_tokens_unfold (stringp : option string) :
  skip_empty_tokens stringp =
  match strsep stringp " " with
  | (None, _) => None
  | (Some token, stringp') =>
      if starts_empty_or_space token then skip_empty_tokens stringp'
      else Some (token, stringp')
  end.
Proof.
  destruct stringp as [s|]; [|reflexivity].
  destruct s as [|c s']; [reflexivity|].
  unfold strsep; simpl. rewrite is_delim_space.
  destruct (Ascii.eqb c " ") eqn:E; [reflexivity|].
  destruct (split_at_delim " " s') as [t r]; simpl. now rewrite E.
Qed.

(** [strsep_tokens] satisfies the equation of the loop
    [while ((token = strsep(&string, delim)) != NULL)]. *)
Lemma strsep_tokens_unfold (delim : string) (stringp : option string) :
  tokens_from delim stringp =
  match strsep stringp delim with
  | (None, _) => []
  | (Some token, stringp') => token :: tokens_from delim stringp'
  end.
Proof.
  destruct stringp as [s|]; [|reflexivity].
  unfold strsep, tokens_from, strsep_tokens.
  induction s as [|c s' IH]; [reflexivity|].
  simpl. destruct (is_delim delim c); [reflexivity|].
  rewrite IH. now destruct (split_at_delim delim s') as [t [r|]].
Qed.

(** ** Growth of the destination storage *)

Lemma realloc_length (m : list memval) (size : Z) :
  List.length (realloc m size) = Z.to_nat size.
Proof.
  unfold realloc. rewrite length_app, length_firstn, repeat_length. lia.
Qed.

(** A successful [realloc] keeps the bytes below both sizes. *)
Lemma realloc_keeps (m : list memval) (size : Z) (k : nat) :
  (k < List.length m)%nat -> (k < Z.to_nat size)%nat ->
  nth_error (realloc m size) k = nth_error m k.
Proof.
  intros Hm Hs. unfold realloc.
  rewrite nth_error_app1 by (rewrite length_firstn; lia).
  now rewrite nth_error_firstn, (proj2 (Nat.ltb_lt _ _) Hs).
Qed.

Lemma reallocate_loop_true (realloc_ok : nat -> Z -> bool) (new_N : Z) :
  forall ptrs i ptrs',
    reallocate_loop realloc_ok i ptrs new_N = (true, ptrs') ->
    ptrs' = map (grown new_N) ptrs.
Proof.
  induction ptrs as [|p rest IH]; simpl; intros i ptrs' H.
  - now inversion H.
  - destruct (realloc_ok i _); [|discriminate].
    destruct (reallocate_loop realloc_ok (S i) rest new_N) as [ok rest'] eqn:E.
    inversion H; subst. now rewrite (IH _ _ E).
Qed.

Lemma reallocate_loop_false (realloc_ok : nat -> Z -> bool) (new_N : Z) :
  forall ptrs i ptrs',
    reallocate_loop realloc_ok i ptrs new_N = (false, ptrs') ->
    exists k p,
      nth_error ptrs k = Some p /\
      realloc_ok (i + k)%nat ((base_element_size p * new_N) mod 2 ^ 64) = false /\
      ptrs' = map (grown new_N) (firstn k ptrs)
              ++ refused new_N p :: skipn (S k) ptrs.
Proof.
  induction ptrs as [|p rest IH]; cbn [reallocate_loop]; intros i ptrs' H.
  - discriminate.
  - destruct (realloc_ok i _) eqn:Ok.
    + destruct (reallocate_loop realloc_ok (S i) rest new_N) as [ok rest'] eqn:E.
      inversion H; subst.
      destruct (IH _ _ E) as (k & q & Hq & Hfail & Hrest).
      exists (S k), q. cbn [nth_error firstn skipn map app].
      repeat split; trivial.
      * now replace (i + S k)%nat with (S i + k)%nat by lia.
      * now rewrite Hrest.
    + inversion H; subst. exists 0%nat, p. cbn [nth_error firstn skipn map app].
      now rewrite Nat.add_0_r.
Qed.

(** What a NULL from [realloc] leaves of a group: the group itself after a
    request of at least one byte, no accessible byte after a request of 0
    bytes. *)
Lemma refused_cases (new_N : Z) (p : base_ptr) :
  base_element_size (refused new_N p) = base_element_size p /\
  ((base_element_size p * new_N) mod 2 ^ 64 <> 0 -> refused new_N p = p) /\
  ((base_element_size p * new_N) mod 2 ^ 64 = 0 -> block (refused new_N p) = []).
Proof.
  unfold refused, realloc_null. cbn [base_element_size block].
  split; [reflexivity|]. split; intros H.
  - apply Z.eqb_neq in H. rewrite H. now destruct p.
  - now rewrite H.
Qed.

(** When every group is served, all groups are resized and the recorded
    capacity becomes [new_N]. *)
Lemma reallocate_base_ptrs_success (realloc_ok : nat -> Z -> bool)
    (b : base_ptr_info) (new_N : Z) (b' : base_ptr_info) :
  reallocate_base_ptrs realloc_ok b new_N = Returned EXIT_SUCCESS b' ->
  b' = {| base_ptrs := map (grown new_N) (base_ptrs b); N := N b; nallocated := new_N |}.
Proof.
  unfold reallocate_base_ptrs.
  destruct (reallocate_loop realloc_ok 0 (base_ptrs b) new_N) as [[|] ptrs] eqn:E;
    intros H; inversion H.
  now rewrite (reallocate_loop_true _ _ _ _ _ E).
Qed.

(** C5, as the code has it: when growing one group fails,
    [reallocate_base_ptrs] returns [EXIT_FAILURE] with the row count and the
    recorded capacity unchanged; the groups before the failing one have
    already been resized for [new_N] elements and the groups after it are
    untouched.  The failing group keeps its element size; it is untouched
    when the request that failed was for at least one byte, and when the
    request was for 0 bytes ([size * new_N] is 0 modulo [2^64]) its block
    has been freed, so that no byte of it can be accessed any more. *)
Theorem reallocate_base_ptrs_failure (realloc_ok : nat -> Z -> bool)
    (b : base_ptr_info) (new_N : Z) (b' : base_ptr_info) :
  reallocate_base_ptrs realloc_ok b new_N = Returned EXIT_FAILURE b' ->
  N b' = N b /\ nallocated b' = nallocated b /\
  exists k p p',
    nth_error (base_ptrs b) k = Some p /\
    realloc_ok k ((base_element_size p * new_N) mod 2 ^ 64) = false /\
    base_ptrs b' =
      map (grown new_N) (firstn k (base_ptrs b))
      ++ p' :: skipn (S k) (base_ptrs b) /\
    base_element_size p' = base_element_size p /\
    ((base_element_size p * new_N) mod 2 ^ 64 <> 0 -> p' = p) /\
    ((base_element_size p * new_N) mod 2 ^ 64 = 0 -> block p' = []).
Proof.
  unfold reallocate_base_ptrs.
  destruct (reallocate_loop realloc_ok 0 (base_ptrs b) new_N) as [[|] ptrs] eqn:E;
    intros H; inversion H; subst; simpl.
  repeat split.
  destruct (reallocate_loop_false _ _ _ _ _ E) as (k & p & Hp & Hfail & Hptrs).
  exists k, p, (refused new_N p).
  split; [exact Hp|]. split; [exact Hfail|]. split; [exact Hptrs|].
  apply refused_cases.
Qed.

Lemma reallocate_base_ptrs_failure_witness :
  reallocate_base_ptrs first_group_only two_arrays 2
    = Returned EXIT_FAILURE two_arrays_half_grown
  /\ (N two_arrays_half_grown = N two_arrays
      /\ nallocated two_arrays_half_grown = nallocated two_arrays
      /\ exists k p p',
           nth_error (base_ptrs two_arrays) k = Some p /\
           first_group_only k ((base_element_size p * 2) mod 2 ^ 64) = false /\
           base_ptrs two_arrays_half_grown =
             map (grown 2) (firstn k (base_ptrs two_arrays))
             ++ p' :: skipn (S k) (base_ptrs two_arrays) /\
           base_element_size p' = base_element_size p /\
           ((base_element_size p * 2) mod 2 ^ 64 <> 0 -> p' = p) /\
           ((base_element_size p * 2) mod 2 ^ 64 = 0 -> block p' = [])).
Proof.
  split; [reflexivity|].
  apply (reallocate_base_ptrs_failure first_group_only two_arrays 2).
  reflexivity.
Defined.

(** C5 as stated does not hold: the second of two groups cannot be grown,
    the call fails, and the first group's storage has been resized. *)
Lemma reallocate_base_ptrs_partial_growth :
  reallocate_base_ptrs first_group_only two_arrays 2
    = Returned EXIT_FAILURE two_arrays_half_grown
  /\ base_ptrs two_arrays_half_grown <> base_ptrs two_arrays.
Proof.
  split; [reflexivity|]. discriminate.
Qed.

(** A request of 0 bytes for which [realloc] returns NULL: the call fails,
    and the first group, which held one row, has lost its block. *)
Example reallocate_base_ptrs_zero_bytes :
  exists b',
    reallocate_base_ptrs never_ok two_arrays 0 = Returned EXIT_FAILURE b' /\
    map block (base_ptrs two_arrays) = [encode (Vint32 7); encode (Vint64 9)] /\
    map block (base_ptrs b') = [[]; encode (Vint64 9)].
Proof.
  eexists. repeat split; reflexivity.
Qed.

(** C4: growth from capacity zero.  With [N = nallocated = 0] the new
    capacity is [2 * 0]: a successful growth leaves the capacity at zero,
    and the row that follows either fails with the allocation or is written
    outside the (empty) storage. *)
Theorem growth_from_zero_capacity :
  reallocate_base_ptrs always_ok empty_array (2 * N empty_array)
    = Returned EXIT_SUCCESS empty_array
  /\ forall realloc_ok : nat -> Z -> bool,
       parse_line_ctrees realloc_ok "7" (first_as I32) empty_array = Undefined
       \/ parse_line_ctrees realloc_ok "7" (first_as I32) empty_array
            = Returned EXIT_FAILURE empty_array.
Proof.
  split; [reflexivity|].
  intros realloc_ok.
  unfold parse_line_ctrees, reallocate_base_ptrs; simpl.
  change (0 mod Z.pow_pos 2 64) with 0.
  destruct (realloc_ok 0%nat 0); [left | right]; reflexivity.
Qed.

(** With a single mapped column, three rows from capacity 1 give the
    capacities 1, 2 and 4 and the row count 3, and the rows written before
    a growth keep their values. *)
Example growth_sequence_single_column :
  exists b1 b2 b3,
    parse_line_ctrees always_ok "10" (first_as I32) one_row_array
      = Returned EXIT_SUCCESS b1 /\
    parse_line_ctrees always_ok "20" (first_as I32) b1 = Returned EXIT_SUCCESS b2 /\
    parse_line_ctrees always_ok "30" (first_as I32) b2 = Returned EXIT_SUCCESS b3 /\
    map nallocated [b1; b2; b3] = [1; 2; 4] /\
    N b3 = 3 /\
    map block (base_ptrs b3) =
      [encode (Vint32 10) ++ encode (Vint32 20) ++ encode (Vint32 30)
       ++ repeat Mundef 4].
Proof.
  do 3 eexists. repeat split; reflexivity.
Qed.

(** C1: a row with two mapped columns advances the row counter by two, and
    the second value lands in the record after the one holding the first. *)
Theorem row_counter_per_column :
  exists b',
    parse_line_ctrees always_ok "1 2" two_fields pair_records
      = Returned EXIT_SUCCESS b' /\
    N pair_records = 0 /\ N b' = 2 /\
    map block (base_ptrs b') =
      [encode (Vint32 1) ++ repeat Mundef 8 ++ encode (Vint32 2)
       ++ repeat Mundef 16].
Proof.
  eexists. repeat split; reflexivity.
Qed.

Lemma parse_column_counter (c : column) (cur cur' : cursor) (b b' : base_ptr_info) :
  parse_column c cur b = Returned EXIT_SUCCESS (cur', b') ->
  N b' = N b + 1 /\ nallocated b' = nallocated b.
Proof.
  unfold parse_column. intros H.
  repeat case_match; fold_status; try discriminate.
  inversion H; subst; simpl. split; reflexivity.
Qed.

Lemma parse_columns_counter :
  forall cols cur b b',
    parse_columns cols cur b = Returned EXIT_SUCCESS b' ->
    N b' = N b + Z.of_nat (List.length cols) /\ nallocated b' = nallocated b.
Proof.
  induction cols as [|c rest IH]; intros cur b b' H.
  - inversion H; subst. simpl. split; [lia | reflexivity].
  - cbn [parse_columns] in H.
    destruct (parse_column c cur b) as [status [cur1 b1]| |] eqn:E; try discriminate.
    destruct (status =? EXIT_SUCCESS) eqn:S.
    + apply Z.eqb_eq in S; subst.
      destruct (parse_column_counter _ _ _ _ _ E) as [HN Hcap].
      destruct (IH _ _ _ H) as [HN' Hcap'].
      cbn [List.length]. split; [lia | congruence].
    + inversion H; subst. discriminate.
Qed.

(** Every successful call of [parse_line_ctrees] adds the number of mapped
    columns to the row counter. *)
Lemma parse_line_ctrees_counter (realloc_ok : nat -> Z -> bool) (linebuf : string)
    (cols : ctrees_column_to_ptr) (b b' : base_ptr_info) :
  parse_line_ctrees realloc_ok linebuf cols b = Returned EXIT_SUCCESS b' ->
  N b' = N b + ncols cols.
Proof.
  unfold parse_line_ctrees, ncols. intros H.
  destruct (nallocated b =? N b).
  - destruct (in_int64 (2 * N b)); [|discriminate].
    destruct (reallocate_base_ptrs realloc_ok b (2 * N b)) as [status b1| |] eqn:E;
      try discriminate.
    destruct (status =? EXIT_SUCCESS) eqn:S.
    + apply Z.eqb_eq in S; subst.
      apply reallocate_base_ptrs_success in E. subst b1.
      now apply parse_columns_counter in H.
    + inversion H; subst. discriminate.
  - cbn in H. now apply parse_columns_counter in H.
Qed.

(** When the row counter has reached the capacity and the row is parsed,
    the recorded capacity has doubled. *)
Lemma parse_line_ctrees_doubles (realloc_ok : nat -> Z -> bool) (linebuf : string)
    (cols : ctrees_column_to_ptr) (b b' : base_ptr_info) :
  nallocated b = N b ->
  parse_line_ctrees realloc_ok linebuf cols b = Returned EXIT_SUCCESS b' ->
  nallocated b' = 2 * nallocated b.
Proof.
  unfold parse_line_ctrees. intros Hfull H.
  rewrite (proj2 (Z.eqb_eq _ _) Hfull) in H.
  destruct (in_int64 (2 * N b)); [|discriminate].
  destruct (reallocate_base_ptrs realloc_ok b (2 * N b)) as [status b1| |] eqn:E;
    try discriminate.
  destruct (status =? EXIT_SUCCESS) eqn:S.
  - apply Z.eqb_eq in S; subst.
    apply reallocate_base_ptrs_success in E. subst b1.
    apply parse_columns_counter in H. destruct H as [_ H].
    cbn [nallocated] in H. lia.
  - inversion H; subst. discriminate.
Qed.

(** C3: a column requested as [U32] takes the [default:] branch of the
    dispatch; the call fails and nothing has been written.  [U64] does the
    same. *)
Theorem unsigned_types_rejected :
  parse_line_ctrees always_ok "7" (first_as U32) int_array
    = Returned EXIT_FAILURE int_array
  /\ parse_line_ctrees always_ok "7" (first_as U64) int_array
       = Returned EXIT_FAILURE int_array
  /\ convert U32 "7" = None /\ convert U64 "7" = None.
Proof.
  repeat split; reflexivity.
Qed.

(** The four types the dispatch handles are converted. *)
Lemma convert_handled (wanted_type : Z) (tok : string) :
  wanted_type = I32 \/ wanted_type = I64 \/ wanted_type = F32 \/ wanted_type = F64 ->
  exists v, convert wanted_type tok = Some v.
Proof.
  intros [H|[H|[H|H]]]; subst; eexists; reflexivity.
Qed.

(** ** The sort of the matched columns *)

Lemma sort_insert_perm (x : Z * request) (l : list (Z * request)) :
  Permutation (x :: l) (sort_insert x l).
Proof.
  induction l as [|y l IH]; simpl; [reflexivity|].
  destruct (fst x <=? fst y); [reflexivity|].
  rewrite perm_swap. now constructor.
Qed.

Lemma sort_perm (l : list (Z * request)) :
  Permutation l (SGLIB_ARRAY_QUICK_SORT l).
Proof.
  induction l as [|x l IH]; simpl; [constructor|].
  rewrite <- sort_insert_perm. now constructor.
Qed.

Lemma sort_insert_sorted (x : Z * request) (l : list (Z * request)) :
  StronglySorted key_le l -> StronglySorted key_le (sort_insert x l).
Proof.
  induction 1 as [|y l Hl IH Hy]; simpl.
  - repeat constructor.
  - destruct (fst x <=? fst y) eqn:E.
    + apply Z.leb_le in E. constructor; [now constructor|].
      constructor; [exact E|].
      eapply Forall_impl; [|exact Hy]. unfold key_le. intros; lia.
    + apply Z.leb_gt in E. constructor; [exact IH|].
      eapply Permutation_Forall; [apply sort_insert_perm|].
      constructor; [unfold key_le; lia | exact Hy].
Qed.

Lemma sort_sorted (l : list (Z * request)) :
  StronglySorted key_le (SGLIB_ARRAY_QUICK_SORT l).
Proof.
  induction l; simpl; [constructor | now apply sort_insert_sorted].
Qed.

(** Stability: the entries with a given key keep their order. *)
Lemma sort_insert_stable (k : Z) (x : Z * request) (l : list (Z * request)) :
  filter (fun p => fst p =? k) (sort_insert x l)
  = filter (fun p => fst p =? k) (x :: l).
Proof.
  induction l as [|y l IH]; [reflexivity|].
  cbn [sort_insert].
  destruct (fst x <=? fst y) eqn:E; [reflexivity|].
  apply Z.leb_gt in E.
  cbn [filter] in *. rewrite IH.
  destruct (fst x =? k) eqn:Ex, (fst y =? k) eqn:Ey; trivial.
  apply Z.eqb_eq in Ex, Ey. lia.
Qed.

Lemma sort_stable (k : Z) (l : list (Z * request)) :
  filter (fun p => fst p =? k) (SGLIB_ARRAY_QUICK_SORT l)
  = filter (fun p => fst p =? k) l.
Proof.
  induction l as [|x l IH]; [reflexivity|].
  cbn [SGLIB_ARRAY_QUICK_SORT]. rewrite sort_insert_stable.
  cbn [filter]. now rewrite IH.
Qed.

Lemma filter_perm {A : Type} (f : A -> bool) (l l' : list A) :
  Permutation l l' -> Permutation (filter f l) (filter f l').
Proof.
  induction 1 as [|x l l' _ IH|x y l|l l' l'' _ IH1 _ IH2]; simpl.
  - constructor.
  - destruct (f x); [now constructor | exact IH].
  - destruct (f x), (f y); try reflexivity. apply perm_swap.
  - now transitivity (filter f l').
Qed.

Lemma filter_sorted {A : Type} (R : A -> A -> Prop) (f : A -> bool) (l : list A) :
  StronglySorted R l -> StronglySorted R (filter f l).
Proof.
  induction 1 as [|x l Hl IH Hx]; simpl; [constructor|].
  destruct (f x); [|exact IH].
  constructor; [exact IH|].
  apply Forall_forall. intros y Hy. apply filter_In in Hy.
  rewrite Forall_forall in Hx. now apply Hx.
Qed.

Lemma map_sorted {A B : Type} (R : B -> B -> Prop) (g : A -> B) (l : list A) :
  StronglySorted (fun x y => R (g x) (g y)) l -> StronglySorted R (map g l).
Proof.
  induction 1 as [|x l Hl IH Hx]; simpl; constructor; trivial.
  now apply Forall_map.
Qed.

(** ** The resolved mapping *)

Lemma assign_found_filter (sorted : list (Z * request)) :
  assign_found sorted = map entry (filter found sorted).
Proof.
  induction sorted as [|[matched r] rest IH]; [reflexivity|].
  cbn [assign_found filter]. unfold found at 1. cbn [fst].
  destruct (matched =? -1); cbn [negb]; [exact IH|].
  cbn [map]. now rewrite IH.
Qed.

Lemma combine_matched (names : list string) (reqs : list request) :
  combine (match_column_name (map req_column_name reqs) names) reqs
  = paired names reqs.
Proof.
  unfold match_column_name, paired, resolve.
  induction reqs as [|r reqs IH]; [reflexivity|]. simpl. now rewrite IH.
Qed.

(** What a successful call has computed. *)
Lemma parse_header_ctrees_success (file : option (list ascii)) (st st' : header_state) :
  parse_header_ctrees file st = Returned EXIT_SUCCESS st' ->
  exists names,
    header_column_names file = Returned EXIT_SUCCESS names /\
    st' = {| requests := map snd (SGLIB_ARRAY_QUICK_SORT (paired names (requests st)));
             column_info := assign_found (SGLIB_ARRAY_QUICK_SORT (paired names (requests st))) |}.
Proof.
  unfold parse_header_ctrees. intros H.
  destruct (_ >? _); [inversion H; discriminate|].
  destruct (header_column_names file) as [status names| |]; try discriminate.
  destruct (status =? EXIT_SUCCESS) eqn:S.
  - apply Z.eqb_eq in S; subst. exists names. split; [reflexivity|].
    rewrite combine_matched in H. now inversion H.
  - inversion H; subst. discriminate.
Qed.

Lemma parse_header_ctrees_ok (file : option (list ascii)) (st : header_state)
    (names : list string) :
  header_column_names file = Returned EXIT_SUCCESS names ->
  Z.of_nat (List.length (requests st)) <= PARSE_CTREES_MAX_NCOLS ->
  parse_header_ctrees file st =
    Returned EXIT_SUCCESS
      {| requests := map snd (SGLIB_ARRAY_QUICK_SORT (paired names (requests st)));
         column_info := assign_found (SGLIB_ARRAY_QUICK_SORT (paired names (requests st))) |}.
Proof.
  intros Hnames Hn. unfold parse_header_ctrees.
  destruct (_ >? _) eqn:E; [apply Z.gtb_lt in E; lia|].
  rewrite Hnames. cbn. now rewrite combine_matched.
Qed.

Lemma sorted_keys (names : list string) (reqs : list request) :
  Forall (fun p => fst p = resolve names (snd p))
    (SGLIB_ARRAY_QUICK_SORT (paired names reqs)).
Proof.
  eapply Permutation_Forall; [apply sort_perm|].
  unfold paired. apply Forall_map, Forall_forall. reflexivity.
Qed.

Lemma filter_found_key (k : Z) (l : list (Z * request)) :
  k <> -1 ->
  filter (fun p => fst p =? k) (filter found l) = filter (fun p => fst p =? k) l.
Proof.
  intros Hk. induction l as [|p l IH]; [reflexivity|].
  cbn [filter]. unfold found at 1.
  destruct (fst p =? -1) eqn:E1; cbn [negb].
  - apply Z.eqb_eq in E1. rewrite IH.
    destruct (fst p =? k) eqn:E2; [apply Z.eqb_eq in E2; lia | reflexivity].
  - cbn [filter]. now rewrite IH.
Qed.

(** C6: after a successful call the mapping is in ascending order of file
    column index, and for every file column the entries that resolve to it
    are those of the requests naming it, in request order, each with its own
    type, destination selector and byte offset. *)
Theorem parse_header_ctrees_sorted_stable (file : option (list ascii))
    (st st' : header_state) :
  parse_header_ctrees file st = Returned EXIT_SUCCESS st' ->
  StronglySorted Z.le (map column_number (column_info st')) /\
  exists names,
    header_column_names file = Returned EXIT_SUCCESS names /\
    forall k, k <> -1 ->
      filter (fun c => column_number c =? k) (column_info st')
      = map (resolved k) (filter (fun r => resolve names r =? k) (requests st)).
Proof.
  intros H. apply parse_header_ctrees_success in H.
  destruct H as (names & Hnames & ->). cbn [column_info].
  rewrite assign_found_filter. split.
  - apply map_sorted, map_sorted, filter_sorted. apply sort_sorted.
  - exists names. split; [exact Hnames|]. intros k Hk.
    rewrite (filter_map_swap (fun c => column_number c =? k) entry).
    cbn [entry resolved column_number].
    rewrite filter_found_key by exact Hk.
    rewrite sort_stable. unfold paired.
    rewrite (filter_map_swap (fun p => fst p =? k)). cbn [fst].
    rewrite map_map. apply map_ext_in. intros r Hr.
    apply filter_In in Hr. destruct Hr as [_ Hr]. apply Z.eqb_eq in Hr.
    unfold entry. cbn [fst snd]. now rewrite Hr.
Qed.

Lemma find_column_range (wanted : string) :
  forall names j, 0 <= j ->
    find_column wanted names j = -1 \/ j <= find_column wanted names j.
Proof.
  induction names as [|n names IH]; intros j Hj; simpl; [now left|].
  destruct (strcasecmp wanted n =? 0); [right; lia|].
  destruct (IH (j + 1) ltac:(lia)); [now left | right; lia].
Qed.

Lemma find_column_absent (wanted : string) :
  forall names j, 0 <= j ->
    (find_column wanted names j =? -1) = absent names wanted.
Proof.
  induction names as [|n names IH]; intros j Hj; simpl; [reflexivity|].
  destruct (strcasecmp wanted n =? 0); cbn [negb andb].
  - apply Z.eqb_neq. lia.
  - apply IH. lia.
Qed.

Lemma found_paired (names : list string) (reqs : list request) :
  map entry (filter found (paired names reqs))
  = map (fun r => resolved (resolve names r) r)
      (filter (fun r => negb (absent names (req_column_name r))) reqs).
Proof.
  unfold paired. rewrite (filter_map_swap found), map_map.
  unfold found, entry, resolve. cbn [fst snd].
  f_equal. apply filter_ext. intros r.
  now rewrite find_column_absent.
Qed.

Lemma filter_negb_length {A : Type} (f : A -> bool) (l : list A) :
  (List.length (filter f l) + List.length (filter (fun x => negb (f x)) l)
   = List.length l)%nat.
Proof.
  induction l as [|x l IH]; [reflexivity|].
  simpl. destruct (f x); simpl; lia.
Qed.

(** The mapping of a successful call holds the entries of the requests that
    name a column of the header, and no others. *)
Lemma parse_header_ctrees_entries (file : option (list ascii))
    (st : header_state) (names : list string) :
  header_column_names file = Returned EXIT_SUCCESS names ->
  Z.of_nat (List.length (requests st)) <= PARSE_CTREES_MAX_NCOLS ->
  exists st',
    parse_header_ctrees file st = Returned EXIT_SUCCESS st' /\
    Permutation (column_info st')
      (map (fun r => resolved (resolve names r) r)
         (filter (fun r => negb (absent names (req_column_name r))) (requests st))).
Proof.
  intros Hnames Hn. eexists. split.
  - exact (parse_header_ctrees_ok file st names Hnames Hn).
  - cbn [column_info]. rewrite assign_found_filter, <- found_paired.
    apply Permutation_map, filter_perm. symmetry. apply sort_perm.
Qed.

(** C8: a request naming a column that the header does not have does not
    make the call fail; the mapping has the entries of the other requests
    and so one entry fewer than was requested. *)
Theorem unmatched_request_omitted (file : option (list ascii))
    (st : header_state) (names : list string) :
  header_column_names file = Returned EXIT_SUCCESS names ->
  Z.of_nat (List.length (requests st)) <= PARSE_CTREES_MAX_NCOLS ->
  List.length (filter (fun r => absent names (req_column_name r)) (requests st)) = 1%nat ->
  exists st',
    parse_header_ctrees file st = Returned EXIT_SUCCESS st' /\
    ncols (column_info st') = Z.of_nat (List.length (requests st)) - 1 /\
    Permutation (column_info st')
      (map (fun r => resolved (resolve names r) r)
         (filter (fun r => negb (absent names (req_column_name r))) (requests st))).
Proof.
  intros Hnames Hn Habsent.
  destruct (parse_header_ctrees_entries file st names Hnames Hn) as (st' & Hst & Hperm).
  exists st'. repeat split; trivial.
  unfold ncols. rewrite (Permutation_length Hperm), length_map.
  pose proof (filter_negb_length (fun r => absent names (req_column_name r)) (requests st)).
  lia.
Qed.

(** C9, as the code has it: the caller's request arrays are reordered, all
    four together.  After a successful call they hold their original
    entries in ascending order of resolved file column (requests without a
    column first); after a failed call they are unchanged. *)
Theorem parse_header_ctrees_reorders_requests (file : option (list ascii))
    (st : header_state) (status : Z) (st' : header_state) :
  parse_header_ctrees file st = Returned status st' ->
  Permutation (requests st) (requests st') /\
  (status = EXIT_SUCCESS ->
     exists names,
       header_column_names file = Returned EXIT_SUCCESS names /\
       StronglySorted Z.le (map (resolve names) (requests st'))) /\
  (status = EXIT_FAILURE -> st' = st).
Proof.
  intros H.
  destruct (Z.eq_dec status EXIT_SUCCESS) as [->|Hs].
  - apply parse_header_ctrees_success in H. destruct H as (names & Hnames & ->).
    cbn [requests]. repeat split.
    + transitivity (map snd (paired names (requests st))).
      * unfold paired. rewrite map_map. cbn [snd]. now rewrite map_id.
      * apply Permutation_map, sort_perm.
    + intros _. exists names. split; [exact Hnames|].
      rewrite map_map. apply map_sorted.
      pose proof (sort_sorted (paired names (requests st))) as Hsorted.
      pose proof (sorted_keys names (requests st)) as Hkeys.
      induction Hsorted as [|p l Hl IH Hp]; constructor.
      * apply IH. now inversion Hkeys.
      * inversion Hkeys as [|? ? Hk Hks]; subst.
        rewrite Forall_forall in *. intros q Hq.
        specialize (Hp q Hq). specialize (Hks q Hq). unfold key_le in Hp.
        cbn beta. rewrite <- Hk, <- Hks. exact Hp.
    + discriminate.
  - assert (st' = st) as ->.
    { unfold parse_header_ctrees in H.
      destruct (_ >? _); [now inversion H|].
      destruct (header_column_names file) as [s names| |]; try discriminate.
      destruct (s =? EXIT_SUCCESS) eqn:S.
      - apply Z.eqb_eq in S; subst. inversion H; subst. contradiction.
      - now inversion H. }
    repeat split; trivial. contradiction.
Qed.

Lemma parse_header_ctrees_sorted_stable_witness :
  parse_header_ctrees abc_file ask_c_a_c = Returned EXIT_SUCCESS ask_c_a_c_after
  /\ (StronglySorted Z.le (map column_number (column_info ask_c_a_c_after)) /\
      exists names,
        header_column_names abc_file = Returned EXIT_SUCCESS names /\
        forall k, k <> -1 ->
          filter (fun c => column_number c =? k) (column_info ask_c_a_c_after)
          = map (resolved k)
              (filter (fun r => resolve names r =? k) (requests ask_c_a_c))).
Proof.
  split; [reflexivity|].
  apply (parse_header_ctrees_sorted_stable abc_file ask_c_a_c ask_c_a_c_after).
  reflexivity.
Defined.

Lemma unmatched_request_omitted_witness :
  header_column_names abc_file = Returned EXIT_SUCCESS ["a"; "b"; "c"]
  /\ Z.of_nat (List.length (requests ask_a_zz_c)) <= PARSE_CTREES_MAX_NCOLS
  /\ List.length
       (filter (fun r => absent ["a"; "b"; "c"] (req_column_name r))
          (requests ask_a_zz_c)) = 1%nat
  /\ exists st',
       parse_header_ctrees abc_file ask_a_zz_c = Returned EXIT_SUCCESS st' /\
       ncols (column_info st') = Z.of_nat (List.length (requests ask_a_zz_c)) - 1 /\
       Permutation (column_info st')
         (map (fun r => resolved (resolve ["a"; "b"; "c"] r) r)
            (filter (fun r => negb (absent ["a"; "b"; "c"] (req_column_name r)))
               (requests ask_a_zz_c))).
Proof.
  assert (Hn : Z.of_nat (List.length (requests ask_a_zz_c)) <= PARSE_CTREES_MAX_NCOLS)
    by (vm_compute; discriminate).
  split; [reflexivity|]. split; [exact Hn|]. split; [reflexivity|].
  apply (unmatched_request_omitted abc_file ask_a_zz_c ["a"; "b"; "c"]);
    [reflexivity | exact Hn | reflexivity].
Defined.

Lemma parse_header_ctrees_reorders_requests_witness :
  parse_header_ctrees abc_file ask_c_a = Returned EXIT_SUCCESS ask_c_a_after
  /\ (Permutation (requests ask_c_a) (requests ask_c_a_after) /\
      (EXIT_SUCCESS = EXIT_SUCCESS ->
         exists names,
           header_column_names abc_file = Returned EXIT_SUCCESS names /\
           StronglySorted Z.le (map (resolve names) (requests ask_c_a_after))) /\
      (EXIT_SUCCESS = EXIT_FAILURE -> ask_c_a_after = ask_c_a)).
Proof.
  split; [reflexivity|].
  apply (parse_header_ctrees_reorders_requests abc_file ask_c_a EXIT_SUCCESS ask_c_a_after).
  reflexivity.
Defined.

(** C9 as stated does not hold: with column [c] requested before column
    [a], the call succeeds and the caller's arrays come back exchanged. *)
Lemma caller_arrays_exchanged :
  parse_header_ctrees abc_file ask_c_a = Returned EXIT_SUCCESS ask_c_a_after
  /\ requests ask_c_a_after <> requests ask_c_a.
Proof.
  split; [reflexivity | discriminate].
Qed.

(** The testable examples of header resolution: two of three columns
    requested, and a request in another case. *)
Example resolve_a_c :
  parse_header_ctrees abc_file
    {| requests := [mk_request "a" I32 0 0; mk_request "c" I32 0 4];
       column_info := [] |}
  = Returned EXIT_SUCCESS
      {| requests := [mk_request "a" I32 0 0; mk_request "c" I32 0 4];
         column_info := [mk_column 0 I32 0 0; mk_column 2 I32 4 0] |}.
Proof. reflexivity. Qed.

Example resolve_upper_case :
  option_map column_info
    (state_of (parse_header_ctrees abc_file
                 {| requests := [mk_request "A" F32 0 0]; column_info := [] |}))
  = Some [mk_column 0 F32 0 0].
Proof. reflexivity. Qed.

(** ** The tokenizer of [parse_line_ctrees] *)

Lemma split_on_space (s : string) :
  split_on (fun c => Ascii.eqb c " ") s
  = fst (split_at_delim " " s) :: fields_from (snd (split_at_delim " " s)).
Proof.
  induction s as [|c s IH]; [reflexivity|].
  simpl. rewrite is_delim_space.
  destruct (Ascii.eqb c " "); [reflexivity|].
  rewrite IH. now destruct (split_at_delim " " s).
Qed.

(** The do-while loop leaves the first space-separated token of what is
    ahead, and fails its assertion exactly when there is none. *)
Lemma next_token_words (s : string) :
  match next_token s with
  | None => space_tokens s = []
  | Some (t, r) => space_tokens s = t :: words_from r
  end.
Proof.
  induction s as [|c s IH]; [reflexivity|].
  cbn [next_token]. unfold space_tokens, words in *. cbn [split_on].
  destruct (Ascii.eqb c " ") eqn:E.
  - cbn [filter nonempty]. exact IH.
  - cbn [split_at_delim]. rewrite is_delim_space, E, split_on_space.
    destruct (split_at_delim " " s) as [t r]. cbn [fst snd filter].
    now destruct r.
Qed.

Lemma skip_empty_tokens_words (stringp : option string) :
  match skip_empty_tokens stringp with
  | None => words_from stringp = []
  | Some (t, r) => words_from stringp = t :: words_from r
  end.
Proof.
  destruct stringp as [s|]; [apply next_token_words | reflexivity].
Qed.

Lemma advance_agree (k : Z) :
  forall n cur1 cur2,
    agree k cur1 cur2 ->
    (n <= Z.to_nat (k - icol cur1))%nat ->
    match advance n cur1, advance n cur2 with
    | Some c1, Some c2 => agree k c1 c2
    | None, None => True
    | _, _ => False
    end.
Proof.
  induction n as [|n IH]; intros cur1 cur2 Hagree Hn; [exact Hagree|].
  destruct Hagree as (Hicol & Htoken & Hwords).
  cbn [advance].
  pose proof (skip_empty_tokens_words (string_ cur1)) as H1.
  pose proof (skip_empty_tokens_words (string_ cur2)) as H2.
  destruct (Z.to_nat (k - icol cur1)) as [|m] eqn:Em; [lia|].
  destruct (skip_empty_tokens (string_ cur1)) as [[t1 r1]|],
           (skip_empty_tokens (string_ cur2)) as [[t2 r2]|];
    rewrite H1, H2 in Hwords; cbn [firstn] in Hwords; try discriminate; trivial.
  inversion Hwords; subst t2.
  apply IH.
  - unfold agree; cbn [icol token string_].
    replace (Z.to_nat (k - (icol cur1 + 1))) with m by lia.
    repeat split; trivial. now rewrite Hicol.
  - cbn [icol]. lia.
Qed.

Lemma parse_column_agree (k : Z) (c : column) (cur1 cur2 : cursor) (b : base_ptr_info) :
  agree k cur1 cur2 ->
  column_number c <= k ->
  match parse_column c cur1 b, parse_column c cur2 b with
  | Returned s1 (c1, b1), Returned s2 (c2, b2) =>
      s1 = s2 /\ b1 = b2 /\ (s1 = EXIT_SUCCESS -> agree k c1 c2)
  | Undefined, Undefined => True
  | _, _ => False
  end.
Proof.
  intros Hagree Hk. unfold parse_column.
  destruct (negb (base_ptr_idx c <? num_base_ptrs b)); [repeat split; discriminate|].
  destruct (base_ptr_idx c <? 0); [exact I|].
  destruct (nth_error (base_ptrs b) (Z.to_nat (base_ptr_idx c))) as [p|]; [|exact I].
  destruct (negb (4 <=? base_element_size p)); [repeat split; discriminate|].
  destruct (negb (dest_offset_to_element c <=? base_element_size p));
    [repeat split; discriminate|].
  pose proof (advance_agree k (Z.to_nat (column_number c - icol cur1)) cur1 cur2
                Hagree ltac:(lia)) as Hadv.
  destruct Hagree as (Hicol & _). rewrite <- Hicol.
  destruct (advance _ cur1) as [c1|], (advance _ cur2) as [c2|];
    try contradiction; [|repeat split; discriminate].
  destruct Hadv as (Hi & Ht & Hw). rewrite <- Ht.
  destruct (token c1) as [[|ch tok]|] eqn:Et; try (repeat split; discriminate).
  destruct (convert _ _); [|repeat split; discriminate].
  destruct (store _ _ _); [|exact I].
  repeat split; trivial. congruence.
Qed.

Lemma parse_columns_agree (k : Z) :
  forall cols cur1 cur2 b,
    agree k cur1 cur2 ->
    Forall (fun c => column_number c <= k) cols ->
    parse_columns cols cur1 b = parse_columns cols cur2 b.
Proof.
  induction cols as [|c cols IH]; intros cur1 cur2 b Hagree Hcols; [reflexivity|].
  inversion Hcols as [|? ? Hc Hrest]; subst.
  cbn [parse_columns].
  pose proof (parse_column_agree k c cur1 cur2 b Hagree Hc) as H.
  destruct (parse_column c cur1 b) as [s1 [c1 b1]| |],
           (parse_column c cur2 b) as [s2 [c2 b2]| |]; try contradiction; trivial.
  destruct H as (-> & -> & Hnext).
  destruct (s2 =? EXIT_SUCCESS) eqn:E; [|reflexivity].
  apply Z.eqb_eq in E. now apply IH; [apply Hnext|].
Qed.

(** Rows that agree on the tokens up to the last mapped column are parsed
    alike. *)
Lemma parse_line_ctrees_agree (realloc_ok : nat -> Z -> bool)
    (cols : ctrees_column_to_ptr) (k : Z) (row1 row2 : string) (b : base_ptr_info) :
  Forall (fun c => column_number c <= k) cols ->
  firstn (Z.to_nat (k + 1)) (space_tokens row1)
    = firstn (Z.to_nat (k + 1)) (space_tokens row2) ->
  parse_line_ctrees realloc_ok row1 cols b = parse_line_ctrees realloc_ok row2 cols b.
Proof.
  intros Hcols Hrows. unfold parse_line_ctrees.
  destruct (if nallocated b =? N b then _ else _) as [status b1| |]; trivial.
  destruct (status =? EXIT_SUCCESS); [|reflexivity].
  apply (parse_columns_agree k); [|exact Hcols].
  unfold agree; cbn [icol token string_ words_from].
  replace (k - -1) with (k + 1) by lia. now repeat split.
Qed.

(** C10, as the code has it: the tokens are the maximal runs of characters
    other than the space character.  When no mapped column lies beyond file
    column [k], two rows with the same first [k + 1] such tokens give the
    same result: status, row counter and storage. *)
Theorem parse_line_ctrees_prefix (realloc_ok : nat -> Z -> bool)
    (cols : ctrees_column_to_ptr) (k : Z) (row1 row2 : string) (b : base_ptr_info) :
  Forall (fun c => column_number c <= k) cols ->
  firstn (Z.to_nat (k + 1)) (space_tokens row1)
    = firstn (Z.to_nat (k + 1)) (space_tokens row2) ->
  parse_line_ctrees realloc_ok row1 cols b = parse_line_ctrees realloc_ok row2 cols b.
Proof.
  exact (parse_line_ctrees_agree realloc_ok cols k row1 row2 b).
Qed.

Lemma parse_line_ctrees_prefix_witness :
  Forall (fun c => column_number c <= 2) first_and_third
  /\ firstn (Z.to_nat (2 + 1)) (space_tokens "1 2.5 3 4 5")
     = firstn (Z.to_nat (2 + 1)) (space_tokens "1  2.5 3 999")
  /\ parse_line_ctrees always_ok "1 2.5 3 4 5" first_and_third int_array
     = parse_line_ctrees always_ok "1  2.5 3 999" first_and_third int_array.
Proof.
  assert (H : Forall (fun c => column_number c <= 2) first_and_third)
    by (repeat constructor; simpl; lia).
  split; [exact H|]. split; [reflexivity|].
  apply (parse_line_ctrees_prefix always_ok first_and_third 2); [exact H | reflexivity].
Defined.

(** C10 as stated does not hold: the rows [1<TAB>2 3] and [1 2 3] have the
    same first two whitespace-separated tokens, and with file column 1
    mapped the first stores 3 and the second stores 2. *)
Lemma tab_is_not_a_separator :
  firstn 2 (whitespace_tokens tab_row) = firstn 2 (whitespace_tokens space_row)
  /\ Forall (fun c => column_number c <= 1) second_column
  /\ parse_line_ctrees always_ok tab_row second_column int_array
     <> parse_line_ctrees always_ok space_row second_column int_array.
Proof.
  split; [reflexivity|]. split; [repeat constructor; simpl; lia|].
  vm_compute. discriminate.
Qed.

(** The line parser has no loop that the model cuts off. *)
Lemma parse_column_terminates (c : column) (cur : cursor) (b : base_ptr_info) :
  parse_column c cur b <> OutOfFuel.
Proof.
  unfold parse_column.
  repeat match goal with
         | |- context [match ?x with _ => _ end] => destruct x
         end; discriminate.
Qed.

Lemma parse_columns_terminates :
  forall cols cur b, parse_columns cols cur b <> OutOfFuel.
Proof.
  induction cols as [|c cols IH]; intros cur b; cbn [parse_columns]; [discriminate|].
  pose proof (parse_column_terminates c cur b).
  destruct (parse_column c cur b) as [status [cur' b']| |];
    [|discriminate|contradiction].
  destruct (status =? EXIT_SUCCESS); [apply IH | discriminate].
Qed.

Lemma parse_line_ctrees_terminates (realloc_ok : nat -> Z -> bool) (linebuf : string)
    (cols : ctrees_column_to_ptr) (b : base_ptr_info) :
  parse_line_ctrees realloc_ok linebuf cols b <> OutOfFuel.
Proof.
  unfold parse_line_ctrees, reallocate_base_ptrs.
  destruct (nallocated b =? N b).
  - destruct (in_int64 (2 * N b)); [|discriminate].
    destruct (reallocate_loop _ _ _ _) as [[|] ptrs].
    + change (EXIT_SUCCESS =? EXIT_SUCCESS) with true. apply parse_columns_terminates.
    + discriminate.
  - apply parse_columns_terminates.
Qed.

(** ** The block reader *)

(** Whatever the automatic arrays hold: for a row of [curr_pos] bytes found
    by the scan, the text handed to the line parser is made of the first
    [curr_pos] bytes of [read_buffer]; where the row starts ([start s])
    plays no part in it. *)
Lemma parse_chunk_row (realloc_ok : nat -> Z -> bool)
    (stack_linebuf : nat -> nat -> ascii) (fuel : nat)
    (cols : ctrees_column_to_ptr) (nbytes_read curr_pos : nat) (s : chunk_state) :
  scan_row nbytes_read (read_buffer s) 0 (start s) = Some (curr_pos, false) ->
  curr_pos <> nbytes_read ->
  (curr_pos <= Z.to_nat PARSE_CTREES_MAXBUFSIZE)%nat ->
  parse_chunk realloc_ok stack_linebuf (S fuel) cols nbytes_read s =
  match
    cstring
      (copy_into
         (automatic_array (stack_linebuf (List.length (handed s)))
            (Z.to_nat PARSE_CTREES_MAXBUFSIZE))
         (firstn curr_pos (set_char (read_buffer s) curr_pos NUL)))
  with
  | None => Undefined
  | Some line =>
      match parse_line_ctrees realloc_ok line cols (info s) with
      | Returned status info' =>
          let s' :=
            {| read_buffer := set_char (read_buffer s) curr_pos NUL;
               start := start s + (curr_pos + 1);
               bytes_processed := bytes_processed s + (curr_pos + 1);
               done := done s;
               info := info';
               handed := handed s ++ [line] |} in
          if status =? EXIT_SUCCESS
          then parse_chunk realloc_ok stack_linebuf fuel cols nbytes_read s'
          else Returned status s'
      | Undefined => Undefined
      | OutOfFuel => OutOfFuel
      end
  end.
Proof.
  intros Hscan Hrow Hfits.
  cbn [parse_chunk]. rewrite Hscan.
  rewrite (proj2 (Nat.eqb_neq _ _) Hrow).
  rewrite (proj2 (Nat.ltb_ge _ _) Hfits).
  rewrite orb_false_r.
  destruct (cstring _); [|reflexivity].
  destruct (parse_line_ctrees _ _ _ _) as [status info'| |]; trivial.
  cbn zeta. now destruct (status =? EXIT_SUCCESS).
Qed.

Lemma copy_into_nothing (buf : list ascii) : copy_into buf [] = buf.
Proof. reflexivity. Qed.

(** Whatever the automatic arrays hold: when the scan of a chunk starts on
    the marker of the next block, the line parser is still called, on a
    [linebuf] that received no byte of the file, and one byte is counted as
    processed. *)
Lemma parse_chunk_at_marker (realloc_ok : nat -> Z -> bool)
    (stack_linebuf : nat -> nat -> ascii) (fuel : nat)
    (cols : ctrees_column_to_ptr) (nbytes_read : nat) (s : chunk_state) :
  nbytes_read <> 0%nat ->
  nth_error (read_buffer s) (start s) = Some "#"%char ->
  parse_chunk realloc_ok stack_linebuf (S fuel) cols nbytes_read s =
  match
    cstring (automatic_array (stack_linebuf (List.length (handed s)))
               (Z.to_nat PARSE_CTREES_MAXBUFSIZE))
  with
  | None => Undefined
  | Some line =>
      match parse_line_ctrees realloc_ok line cols (info s) with
      | Returned status info' =>
          Returned status
            {| read_buffer := set_char (read_buffer s) 0 NUL;
               start := start s + 1;
               bytes_processed := bytes_processed s + 1;
               done := true;
               info := info';
               handed := handed s ++ [line] |}
      | Undefined => Undefined
      | OutOfFuel => OutOfFuel
      end
  end.
Proof.
  intros Hn Hmarker.
  destruct nbytes_read as [|n]; [contradiction|].
  cbn [parse_chunk scan_row]. rewrite Hmarker.
  change (Ascii.eqb "#" newline) with false.
  change (Ascii.eqb "#" "#") with true.
  cbn match. cbn [Nat.eqb Nat.ltb Nat.leb firstn].
  rewrite copy_into_nothing, orb_true_r.
  destruct (cstring _); [|reflexivity].
  destruct (parse_line_ctrees _ _ _ _) as [status info'| |]; trivial.
  destruct (status =? EXIT_SUCCESS) eqn:E; cbn [negb]; [|reflexivity].
  apply Z.eqb_eq in E. now subst.
Qed.

Ltac evaluate t :=
  let v := eval vm_compute in t in change t with v.

(** The rows handed to the line parser are only ever added to. *)
Lemma parse_chunk_handed (realloc_ok : nat -> Z -> bool)
    (slb : nat -> nat -> ascii) (cols : ctrees_column_to_ptr) (nbytes_read : nat) :
  forall fuel s status s',
    parse_chunk realloc_ok slb fuel cols nbytes_read s = Returned status s' ->
    exists more, handed s' = handed s ++ more.
Proof.
  induction fuel as [|fuel IH]; intros s status s' H; [discriminate|].
  cbn [parse_chunk] in H.
  destruct (scan_row _ _ _ _) as [[curr_pos marker]|]; [|discriminate].
  destruct (Nat.eqb curr_pos nbytes_read).
  { inversion H; subst. exists []. cbn [handed]. now rewrite app_nil_r. }
  destruct (Nat.ltb _ curr_pos); [discriminate|].
  destruct (cstring _) as [line|]; [|discriminate].
  destruct (parse_line_ctrees _ _ _ _) as [st info'| |]; try discriminate.
  destruct (negb (st =? EXIT_SUCCESS)).
  { inversion H; subst. now exists [line]. }
  destruct marker.
  { inversion H; subst. now exists [line]. }
  apply IH in H. destruct H as [more H]. cbn [handed] in H.
  exists (line :: more). now rewrite H, <- app_assoc.
Qed.

Lemma read_chunks_handed (realloc_ok : nat -> Z -> bool)
    (slb : nat -> nat -> ascii) (fd : option (list ascii))
    (cols : ctrees_column_to_ptr) :
  forall fuel buf t status t',
    read_chunks realloc_ok slb fuel fd cols buf t = Returned status t' ->
    exists more, tree_handed t' = tree_handed t ++ more.
Proof.
  induction fuel as [|fuel IH]; intros buf t status t' H; [discriminate|].
  cbn [read_chunks] in H.
  destruct (pread _ _ _) as [data|].
  2:{ inversion H; subst. exists []. now rewrite app_nil_r. }
  destruct (Nat.eqb _ 0).
  { inversion H; subst. exists []. now rewrite app_nil_r. }
  destruct (parse_chunk _ _ _ _ _ _) as [st s| |] eqn:E; try discriminate.
  apply parse_chunk_handed in E. destruct E as [more E]. cbn [handed] in E.
  destruct (negb (st =? EXIT_SUCCESS)).
  { inversion H; subst. now exists more. }
  destruct (negb (Nat.leb _ _)).
  { inversion H; subst. now exists more. }
  destruct (done s).
  { inversion H; subst. now exists more. }
  apply IH in H. destruct H as [more' H]. cbn [tree_handed] in H.
  exists (more ++ more'). now rewrite H, E, <- app_assoc.
Qed.

Lemma first_column_of_1_2 (rest : string) (b : base_ptr_info) :
  parse_line_ctrees always_ok ("1 2" ++ rest) (first_as I32) b
  = parse_line_ctrees always_ok "1 2" (first_as I32) b.
Proof.
  apply (parse_line_ctrees_agree always_ok (first_as I32) 0).
  - repeat constructor. simpl. lia.
  - reflexivity.
Qed.

Lemma cstring_1_2 (tail : list ascii) :
  cstring ("1"%char :: " "%char :: "2"%char :: tail)
  = option_map (fun rest => "1 2" ++ rest)%string (cstring tail).
Proof.
  cbn [cstring].
  change (Ascii.eqb "1" NUL) with false.
  change (Ascii.eqb " " NUL) with false.
  change (Ascii.eqb "2" NUL) with false.
  cbv iota. now destruct (cstring tail).
Qed.

Local Opaque automatic_array.

(** Whatever the automatic arrays hold, the texts handed for the two rows
    [1 2] and [3 4] of one chunk both start with [1 2]. *)
Lemma second_row_any_stack (sfl srb : nat -> ascii) (slb : nat -> nat -> ascii)
    (fuel : nat) :
  match
    read_single_tree_ctrees always_ok sfl srb slb fuel two_rows_file 0
      (first_as I32) int_array
  with
  | Returned status t =>
      exists rest1 rest2 more,
        tree_handed t = ("1 2" ++ rest1)%string :: ("1 2" ++ rest2)%string :: more
  | Undefined | OutOfFuel => True
  end.
Proof.
  unfold read_single_tree_ctrees.
  change (ncols (first_as I32) >? PARSE_CTREES_MAX_NCOLS) with false. cbv iota.
  set (X := automatic_array srb sizeof_read_buffer).
  set (F := automatic_array sfl num_chars_first_tree_line).
  evaluate (pread two_rows_file num_chars_first_tree_line 0). cbv iota.
  match goal with
  | |- context [skip_first_tree_line ?l 0] =>
      change (skip_first_tree_line l 0) with 8
  end.
  destruct fuel as [|fuel]; [exact I|].
  cbn [read_chunks tree_offset tree_info tree_handed].
  evaluate (pread two_rows_file to_read_bytes 8). cbv iota.
  cbn [List.length Nat.eqb].
  erewrite (parse_chunk_row always_ok slb sizeof_read_buffer (first_as I32) 8 3);
    [| reflexivity | discriminate | apply Nat.leb_le; reflexivity].
  cbn [read_buffer start bytes_processed done info handed List.length].
  match goal with
  | |- context [cstring (copy_into ?L ?d)] =>
      change (copy_into L d) with ("1"%char :: " "%char :: "2"%char :: skipn 3 L)
  end.
  rewrite cstring_1_2.
  destruct (cstring (skipn 3 _)) as [rest1|]; cbn [option_map]; [|exact I].
  rewrite first_column_of_1_2.
  evaluate (parse_line_ctrees always_ok "1 2" (first_as I32) int_array).
  cbv iota zeta. change (0 =? EXIT_SUCCESS) with true. cbv iota.
  change sizeof_read_buffer with (S (pred sizeof_read_buffer)).
  erewrite (parse_chunk_row always_ok slb (pred sizeof_read_buffer) (first_as I32) 8 3);
    [| reflexivity | discriminate | apply Nat.leb_le; reflexivity].
  cbn [read_buffer start bytes_processed done info handed List.length app].
  match goal with
  | |- context [cstring (copy_into ?L ?d)] =>
      change (copy_into L d) with ("1"%char :: " "%char :: "2"%char :: skipn 3 L)
  end.
  rewrite cstring_1_2.
  destruct (cstring (skipn 3 _)) as [rest2|]; cbn [option_map]; [|exact I].
  rewrite first_column_of_1_2.
  match goal with
  | |- context [parse_line_ctrees always_ok "1 2" ?c ?b] =>
      evaluate (parse_line_ctrees always_ok "1 2" c b)
  end.
  cbv iota zeta. change (0 =? EXIT_SUCCESS) with true. cbv iota.
  destruct (parse_chunk _ _ _ _ _ _) as [st s| |] eqn:E; try exact I.
  apply parse_chunk_handed in E. destruct E as [more E]. cbn [handed app] in E.
  destruct (negb (st =? EXIT_SUCCESS)).
  { cbn [tree_handed]. rewrite E. now exists rest1, rest2, more. }
  destruct (negb (Nat.leb _ _)).
  { cbn [tree_handed]. rewrite E. now exists rest1, rest2, more. }
  destruct (done s).
  { cbn [tree_handed]. rewrite E. now exists rest1, rest2, more. }
  destruct (read_chunks _ _ _ _ _ _ _) as [st' t'| |] eqn:E'; try exact I.
  apply read_chunks_handed in E'. destruct E' as [more' E']. cbn [tree_handed] in E'.
  rewrite E', E. now exists rest1, rest2, (more ++ more').
Qed.

(** Whatever the automatic arrays hold, a block of one row followed by the
    marker of the next block makes two calls of the line parser; the offset
    ends at 13 when the second call succeeds, and stays at 8 otherwise. *)
Lemma marker_any_stack (sfl srb : nat -> ascii) (slb : nat -> nat -> ascii) :
  match
    read_single_tree_ctrees always_ok sfl srb slb 4 two_trees_file 0
      (first_as I32) int_array
  with
  | Returned status t =>
      List.length (tree_handed t) = 2%nat /\
      tree_offset t = (if status =? EXIT_SUCCESS then 13 else 8)
  | Undefined => True
  | OutOfFuel => False
  end.
Proof.
  unfold read_single_tree_ctrees.
  change (ncols (first_as I32) >? PARSE_CTREES_MAX_NCOLS) with false. cbv iota.
  set (X := automatic_array srb sizeof_read_buffer).
  set (F := automatic_array sfl num_chars_first_tree_line).
  evaluate (pread two_trees_file num_chars_first_tree_line 0). cbv iota.
  match goal with
  | |- context [skip_first_tree_line ?l 0] =>
      change (skip_first_tree_line l 0) with 8
  end.
  remember 3%nat as fuel eqn:Hfuel. clear Hfuel.
  cbn [read_chunks tree_offset tree_info tree_handed].
  evaluate (pread two_trees_file to_read_bytes 8). cbv iota.
  cbn [List.length Nat.eqb].
  erewrite (parse_chunk_row always_ok slb sizeof_read_buffer (first_as I32) 16 3);
    [| reflexivity | discriminate | apply Nat.leb_le; reflexivity].
  cbn [read_buffer start bytes_processed done info handed List.length].
  match goal with
  | |- context [cstring (copy_into ?L ?d)] =>
      change (copy_into L d) with ("1"%char :: " "%char :: "2"%char :: skipn 3 L)
  end.
  rewrite cstring_1_2.
  destruct (cstring (skipn 3 _)) as [rest|]; cbn [option_map]; [|exact I].
  rewrite first_column_of_1_2.
  evaluate (parse_line_ctrees always_ok "1 2" (first_as I32) int_array).
  cbv iota zeta. change (0 =? EXIT_SUCCESS) with true. cbv iota.
  change sizeof_read_buffer with (S (pred sizeof_read_buffer)).
  rewrite parse_chunk_at_marker; [| discriminate | reflexivity].
  cbn [read_buffer start bytes_processed done info handed List.length app].
  destruct (cstring _) as [line|]; [|exact I].
  match goal with
  | |- context [parse_line_ctrees ?a ?l ?c ?b] =>
      pose proof (parse_line_ctrees_terminates a l c b) as Hterm;
      destruct (parse_line_ctrees a l c b) as [status info'| |];
      [|exact I|contradiction]
  end.
  cbn [read_buffer start bytes_processed done info handed].
  destruct (status =? EXIT_SUCCESS) eqn:E; cbn [negb].
  - change (Nat.leb (0 + (3 + 1) + 1) 16) with true. cbn [negb].
    split; reflexivity.
  - rewrite E. split; reflexivity.
Qed.

Local Transparent automatic_array.

(** C2: with two rows [1 2] and [3 4] in one chunk, the text handed to the
    line parser for the second row is taken from the first bytes of the
    read buffer, that is, from the first row again, whatever the automatic
    arrays hold; with zero-filled arrays the call succeeds having stored
    the value 1 twice, and the value 3 never reaches the storage. *)
Theorem second_row_repeats_first :
  (forall (sfl srb : nat -> ascii) (slb : nat -> nat -> ascii) (fuel : nat),
     match
       read_single_tree_ctrees always_ok sfl srb slb fuel two_rows_file 0
         (first_as I32) int_array
     with
     | Returned status t =>
         exists rest1 rest2 more,
           tree_handed t
           = ("1 2" ++ rest1)%string :: ("1 2" ++ rest2)%string :: more
     | Undefined | OutOfFuel => True
     end)
  /\ let result :=
       read_single_tree_ctrees always_ok zeroed zeroed zeroed_linebuf 4
         two_rows_file 0 (first_as I32) int_array in
     status_of result = Some EXIT_SUCCESS
     /\ option_map tree_handed (state_of result) = Some ["1 2"; "1 2"]
     /\ option_map (fun t => map block (base_ptrs (tree_info t))) (state_of result)
        = Some [encode (Vint32 1) ++ encode (Vint32 1) ++ repeat Mundef 24].
Proof.
  split; [exact second_row_any_stack|].
  vm_compute. repeat split; reflexivity.
Qed.

(** C7: when the scan meets the marker of the next block, the line parser
    is called once more, on a [linebuf] into which nothing was copied, and
    one byte is counted as processed: whatever the automatic arrays hold,
    the block of one row makes two calls of the line parser, and a
    successful call ends with the offset 13, one past the start of the
    marker line at byte 12.  If [linebuf] is empty the call fails; if it
    still holds the previous row, that row is stored a second time. *)
Theorem marker_row_is_parsed :
  (forall (sfl srb : nat -> ascii) (slb : nat -> nat -> ascii),
     match
       read_single_tree_ctrees always_ok sfl srb slb 4 two_trees_file 0
         (first_as I32) int_array
     with
     | Returned status t =>
         List.length (tree_handed t) = 2%nat /\
         tree_offset t = (if status =? EXIT_SUCCESS then 13 else 8)
     | Undefined => True
     | OutOfFuel => False
     end)
  /\ let cleared :=
       read_single_tree_ctrees always_ok zeroed zeroed zeroed_linebuf 4
         two_trees_file 0 (first_as I32) int_array in
     let reused :=
       read_single_tree_ctrees always_ok zeroed zeroed reused_linebuf 4
         two_trees_file 0 (first_as I32) int_array in
     status_of cleared = Some EXIT_FAILURE
     /\ option_map tree_handed (state_of cleared) = Some ["1 2"; ""]
     /\ status_of reused = Some EXIT_SUCCESS
     /\ option_map tree_handed (state_of reused) = Some ["1 2"; "1 2"]
     /\ option_map (fun t => N (tree_info t)) (state_of reused) = Some 2
     /\ option_map tree_offset (state_of reused) = Some 13
     /\ nth_error (lines ["#tree 1"; "1 2"; "#tree 2"; "3 4"]) 12 = Some "#"%char.
Proof.
  split; [exact marker_any_stack|].
  vm_compute. repeat split; reflexivity.
Qed.

(** * Further properties *)

(** ** [parse_line_ctrees]: what one column does *)

Lemma parse_column_success (c : column) (cur cur' : cursor) (b b' : base_ptr_info) :
  parse_column c cur b = Returned EXIT_SUCCESS (cur', b') ->
  exists p tok v m,
    0 <= base_ptr_idx c < num_base_ptrs b /\
    nth_error (base_ptrs b) (Z.to_nat (base_ptr_idx c)) = Some p /\
    4 <= base_element_size p /\
    dest_offset_to_element c <= base_element_size p /\
    advance (Z.to_nat (column_number c - icol cur)) cur = Some cur' /\
    token cur' = Some tok /\
    convert (field_types c) tok = Some v /\
    store (block p) (N b * base_element_size p + dest_offset_to_element c) v = Some m /\
    b' = {| base_ptrs := set_block (base_ptrs b) (Z.to_nat (base_ptr_idx c)) m;
            N := N b + 1; nallocated := nallocated b |}.
Proof.
  unfold parse_column. intros H.
  destruct (negb (base_ptr_idx c <? num_base_ptrs b)) eqn:E1; [discriminate|].
  destruct (base_ptr_idx c <? 0) eqn:E2; [discriminate|].
  destruct (nth_error _ _) as [p|] eqn:E3; [|discriminate].
  destruct (negb (4 <=? base_element_size p)) eqn:E4; [discriminate|].
  destruct (negb (dest_offset_to_element c <=? base_element_size p)) eqn:E5;
    [discriminate|].
  destruct (advance _ cur) as [cur1|] eqn:E6; [|discriminate].
  destruct (token cur1) as [[|ch tok]|] eqn:E7; try discriminate.
  destruct (convert _ _) as [v|] eqn:E8; [|discriminate].
  destruct (store _ _ _) as [m|] eqn:E9; [|discriminate].
  inversion H; subst.
  apply negb_false_iff in E1, E4, E5.
  apply Z.ltb_lt in E1. apply Z.ltb_ge in E2. apply Z.leb_le in E4, E5.
  exists p, (String ch tok), v, m. repeat split; trivial.
Qed.

(** A column that fails leaves the storage as it found it. *)
Lemma parse_column_failure (c : column) (cur cur' : cursor) (b b' : base_ptr_info)
    (status : Z) :
  parse_column c cur b = Returned status (cur', b') ->
  status <> EXIT_SUCCESS ->
  b' = b.
Proof.
  unfold parse_column. intros H Hs.
  repeat case_match; inversion H; subst; trivial; contradiction.
Qed.

(** An invariant of the storage that every successful column keeps is kept
    by the whole loop, however it ends. *)
Lemma parse_columns_keeps (Q : column -> Prop) (I : base_ptr_info -> Prop) :
  (forall c cur b cur' b',
     Q c -> I b -> parse_column c cur b = Returned EXIT_SUCCESS (cur', b') -> I b') ->
  forall cols cur b status b',
    Forall Q cols -> I b ->
    parse_columns cols cur b = Returned status b' -> I b'.
Proof.
  intros Hstep. induction cols as [|c cols IH]; intros cur b status b' HQ HI H.
  - inversion H; now subst.
  - inversion HQ as [|? ? Hc Hcols]; subst. cbn [parse_columns] in H.
    destruct (parse_column c cur b) as [st [cur1 b1]| |] eqn:E; try discriminate.
    destruct (st =? EXIT_SUCCESS) eqn:S.
    + apply Z.eqb_eq in S; subst.
      exact (IH cur1 b1 status b' Hcols (Hstep _ _ _ _ _ Hc HI E) H).
    + apply Z.eqb_neq in S. inversion H; subst.
      now rewrite (parse_column_failure _ _ _ _ _ _ E S).
Qed.

(** The same for a whole call, starting from the state after the growth. *)
Lemma parse_line_ctrees_keeps (Q : column -> Prop) (I : base_ptr_info -> Prop)
    (realloc_ok : nat -> Z -> bool) (linebuf : string)
    (cols : ctrees_column_to_ptr) (b : base_ptr_info) (status : Z)
    (b' : base_ptr_info) :
  (forall c cur b cur' b',
     Q c -> I b -> parse_column c cur b = Returned EXIT_SUCCESS (cur', b') -> I b') ->
  Forall Q cols ->
  I b -> (nallocated b = N b -> forall status1 b1,
            reallocate_base_ptrs realloc_ok b (2 * N b) = Returned status1 b1 -> I b1) ->
  parse_line_ctrees realloc_ok linebuf cols b = Returned status b' -> I b'.
Proof.
  intros Hstep HQ HI Hgrow. unfold parse_line_ctrees.
  destruct (nallocated b =? N b) eqn:E.
  - apply Z.eqb_eq in E. destruct (in_int64 _); [|discriminate].
    destruct (reallocate_base_ptrs _ _ _) as [st b1| |] eqn:R; try discriminate.
    specialize (Hgrow E _ _ eq_refl).
    destruct (st =? EXIT_SUCCESS); intros H.
    + exact (parse_columns_keeps Q I Hstep _ _ _ _ _ HQ Hgrow H).
    + inversion H; now subst.
  - change (EXIT_SUCCESS =? EXIT_SUCCESS) with true. cbv iota. intros H.
    exact (parse_columns_keeps Q I Hstep _ _ _ _ _ HQ HI H).
Qed.

Lemma set_block_split (ptrs : list base_ptr) (idx : nat) (p : base_ptr)
    (m : list memval) :
  nth_error ptrs idx = Some p ->
  exists l1 l2,
    ptrs = l1 ++ p :: l2 /\ List.length l1 = idx /\
    set_block ptrs idx m
    = l1 ++ {| block := m; base_element_size := base_element_size p |} :: l2.
Proof.
  intros H. unfold set_block. rewrite H.
  destruct (nth_error_split _ _ H) as (l1 & l2 & -> & <-).
  exists l1, l2. repeat split.
  rewrite firstn_app, firstn_all, Nat.sub_diag, app_nil_r.
  replace (S (List.length l1)) with (List.length l1 + 1)%nat by lia.
  now rewrite skipn_app, skipn_all2, Nat.add_comm, Nat.add_sub by lia.
Qed.

Lemma set_block_nth (ptrs : list base_ptr) (idx : nat) (p : base_ptr)
    (m : list memval) (i : nat) :
  nth_error ptrs idx = Some p ->
  nth_error (set_block ptrs idx m) i
  = if Nat.eqb i idx
    then Some {| block := m; base_element_size := base_element_size p |}
    else nth_error ptrs i.
Proof.
  intros H. destruct (set_block_split ptrs idx p m H) as (l1 & l2 & -> & <- & ->).
  destruct (Nat.eqb_spec i (List.length l1)) as [->|Hne].
  - now rewrite nth_error_app2, Nat.sub_diag by lia.
  - destruct (Nat.lt_ge_cases i (List.length l1)).
    + now rewrite !nth_error_app1 by lia.
    + rewrite !nth_error_app2 by lia.
      destruct (i - List.length l1)%nat eqn:E; [lia | reflexivity].
Qed.

Lemma set_block_sizes (ptrs : list base_ptr) (idx : nat) (m : list memval) :
  map base_element_size (set_block ptrs idx m) = map base_element_size ptrs.
Proof.
  destruct (nth_error ptrs idx) as [p|] eqn:H.
  - destruct (set_block_split ptrs idx p m H) as (l1 & l2 & -> & _ & ->).
    now rewrite !map_app.
  - unfold set_block. now rewrite H.
Qed.

Lemma store_below (m m' : list memval) (pos : Z) (v : value) (k : nat) :
  store m pos v = Some m' ->
  Z.of_nat k < pos ->
  nth_error m' k = nth_error m k.
Proof.
  unfold store. destruct (_ && _)%bool eqn:E; [|discriminate].
  intros H Hk. inversion H; subst. clear H.
  apply andb_true_iff in E. destruct E as [E1 E2].
  apply Z.leb_le in E1, E2.
  rewrite nth_error_app1 by (rewrite length_firstn; lia).
  rewrite nth_error_firstn.
  now replace (k <? Z.to_nat pos)%nat with true by (symmetry; apply Nat.ltb_lt; lia).
Qed.

Lemma store_length (m m' : list memval) (pos : Z) (v : value) :
  store m pos v = Some m' -> List.length m' = List.length m.
Proof.
  unfold store. destruct (_ && _)%bool eqn:E; [|discriminate].
  intros H. inversion H; subst. clear H.
  apply andb_true_iff in E. destruct E as [E1 E2].
  apply Z.leb_le in E1, E2.
  rewrite !length_app, length_firstn, length_skipn.
  unfold encode. rewrite length_map, length_seq. lia.
Qed.

(** What the loop leaves of each group, however it ends: the group
    resized, the group as a NULL from [realloc] leaves it, or the group as
    it was. *)
Lemma reallocate_loop_each (realloc_ok : nat -> Z -> bool) (new_N : Z) :
  forall ptrs i ok ptrs',
    reallocate_loop realloc_ok i ptrs new_N = (ok, ptrs') ->
    Forall2 (fun p p' => p' = grown new_N p \/ p' = refused new_N p \/ p' = p)
      ptrs ptrs'.
Proof.
  induction ptrs as [|p rest IH]; cbn [reallocate_loop]; intros i ok ptrs' H.
  - inversion H. constructor.
  - destruct (realloc_ok i _).
    + destruct (reallocate_loop realloc_ok (S i) rest new_N) as [ok' rest'] eqn:E.
      inversion H; subst. constructor; [now left | exact (IH _ _ _ E)].
    + inversion H; subst. constructor; [right; now left|].
      clear. induction rest as [|q rest IH]; constructor; auto.
Qed.

Lemma reallocate_base_ptrs_returns (realloc_ok : nat -> Z -> bool)
    (b : base_ptr_info) (new_N : Z) (status : Z) (b' : base_ptr_info) :
  reallocate_base_ptrs realloc_ok b new_N = Returned status b' ->
  N b' = N b /\
  (status = EXIT_SUCCESS /\ nallocated b' = new_N
   \/ status = EXIT_FAILURE /\ nallocated b' = nallocated b) /\
  Forall2 (fun p p' => p' = grown new_N p \/ p' = refused new_N p \/ p' = p)
    (base_ptrs b) (base_ptrs b').
Proof.
  unfold reallocate_base_ptrs.
  destruct (reallocate_loop realloc_ok 0 (base_ptrs b) new_N) as [[|] ptrs] eqn:E;
    intros H; inversion H; subst; cbn [N nallocated base_ptrs];
    (split; [reflexivity|]);
    (split; [|exact (reallocate_loop_each _ _ _ _ _ _ E)]);
    [now left | now right].
Qed.

Lemma each_sizes (new_N : Z) (ptrs ptrs' : list base_ptr) :
  Forall2 (fun p p' => p' = grown new_N p \/ p' = refused new_N p \/ p' = p)
    ptrs ptrs' ->
  map base_element_size ptrs' = map base_element_size ptrs.
Proof.
  induction 1 as [|p p' ptrs ptrs' Hp _ IH]; [reflexivity|].
  cbn [map]. rewrite IH. f_equal.
  destruct Hp as [->|[->| ->]]; reflexivity.
Qed.

Lemma each_nth_error (new_N : Z) (ptrs ptrs' : list base_ptr) :
  Forall2 (fun p p' => p' = grown new_N p \/ p' = refused new_N p \/ p' = p)
    ptrs ptrs' ->
  forall i p,
    nth_error ptrs i = Some p ->
    exists p',
      nth_error ptrs' i = Some p' /\
      (p' = grown new_N p \/ p' = refused new_N p \/ p' = p).
Proof.
  induction 1 as [|q q' ptrs ptrs' Hq _ IH]; intros i p Hi.
  - now destruct i.
  - destruct i as [|i]; cbn [nth_error] in *.
    + inversion Hi; subst. now exists q'.
    + exact (IH i p Hi).
Qed.

(** The number of groups and their element sizes are the same after a
    call of [parse_line_ctrees] as before, whatever the call returns. *)
Lemma parse_line_ctrees_sizes (realloc_ok : nat -> Z -> bool) (linebuf : string)
    (cols : ctrees_column_to_ptr) (b : base_ptr_info) (status : Z)
    (b' : base_ptr_info) :
  parse_line_ctrees realloc_ok linebuf cols b = Returned status b' ->
  sizes b' = sizes b.
Proof.
  apply (parse_line_ctrees_keeps (fun _ => True) (fun b1 => sizes b1 = sizes b)).
  - intros c cur b1 cur' b2 _ HI H.
    apply parse_column_success in H.
    destruct H as (p & tok & v & m & _ & _ & _ & _ & _ & _ & _ & _ & ->).
    unfold sizes in *. cbn [base_ptrs]. now rewrite set_block_sizes.
  - apply Forall_forall. trivial.
  - reflexivity.
  - intros _ st b1 H. apply reallocate_base_ptrs_returns in H.
    destruct H as (_ & _ & Heach). unfold sizes. exact (each_sizes _ _ _ Heach).
Qed.

(** ** [parse_line_ctrees]: the rows already written *)

Lemma committed_kept_refl (b : base_ptr_info) : committed_kept b b.
Proof.
  split; [lia|]. intros i p k x Hp _ Hx. now exists p.
Qed.

Lemma committed_kept_column (b0 : base_ptr_info) (c : column) (cur cur' : cursor)
    (b b' : base_ptr_info) :
  0 <= dest_offset_to_element c ->
  committed_kept b0 b ->
  parse_column c cur b = Returned EXIT_SUCCESS (cur', b') ->
  committed_kept b0 b'.
Proof.
  intros Hoff [HN Hkept] H.
  apply parse_column_success in H.
  destruct H as (q & tok & v & m & Hidx & Hq & Hstride & _ & _ & _ & _ & Hstore & ->).
  split; [cbn [N]; lia|].
  intros i p k x Hp Hk Hx.
  destruct (Hkept i p k x Hp Hk Hx) as (p' & Hp' & Hsize & Hx').
  cbn [base_ptrs]. rewrite (set_block_nth _ _ q m i Hq).
  destruct (Nat.eqb_spec i (Z.to_nat (base_ptr_idx c))) as [->|Hne].
  - rewrite Hq in Hp'. inversion Hp'; subst p'.
    eexists. split; [reflexivity|]. cbn [base_element_size block].
    split; [exact Hsize|].
    rewrite (store_below _ _ _ _ k Hstore); [exact Hx'|].
    rewrite Hsize in *. nia.
  - now exists p'.
Qed.

Lemma committed_kept_growth (realloc_ok : nat -> Z -> bool) (b : base_ptr_info)
    (status : Z) (b1 : base_ptr_info) :
  Forall (fun size => 0 <= size * (2 * N b) < 2 ^ 64) (sizes b) ->
  reallocate_base_ptrs realloc_ok b (2 * N b) = Returned status b1 ->
  committed_kept b b1.
Proof.
  intros Hsizes H. apply reallocate_base_ptrs_returns in H.
  destruct H as (HN & _ & Heach).
  split; [lia|]. intros i p k x Hp Hk Hx.
  assert (Hin : In (base_element_size p) (sizes b))
    by (apply in_map; eapply nth_error_In; eauto).
  rewrite Forall_forall in Hsizes. specialize (Hsizes _ Hin).
  destruct (each_nth_error _ _ _ Heach i p Hp) as (p' & Hp' & Hcase).
  exists p'. split; [exact Hp'|].
  destruct Hcase as [->|[->| ->]].
  - cbn [grown base_element_size block]. split; [reflexivity|].
    rewrite realloc_keeps; [exact Hx| |].
    + apply nth_error_Some. congruence.
    + rewrite Z.mod_small by lia. nia.
  - cbn [refused base_element_size block]. split; [reflexivity|].
    unfold realloc_null. rewrite Z.mod_small by lia.
    destruct (Z.eqb_spec (base_element_size p * (2 * N b)) 0) as [E|_];
      [nia | exact Hx].
  - now split.
Qed.

(** X1: [parse_line_ctrees] does not touch the rows below the row counter.
    When the byte offsets of the mapping are not negative and the byte size
    of the doubled storage fits [size_t], every byte of every group that
    lies below row [N] before the call holds the same value after the call,
    whatever the call returns; the groups keep their element sizes and the
    row counter does not go back. *)
Theorem parse_line_ctrees_keeps_committed (realloc_ok : nat -> Z -> bool)
    (linebuf : string) (cols : ctrees_column_to_ptr) (b : base_ptr_info)
    (status : Z) (b' : base_ptr_info) :
  Forall (fun c => 0 <= dest_offset_to_element c) cols ->
  Forall (fun size => 0 <= size * (2 * N b) < 2 ^ 64) (sizes b) ->
  parse_line_ctrees realloc_ok linebuf cols b = Returned status b' ->
  N b <= N b' /\ sizes b' = sizes b /\
  forall i p k x,
    nth_error (base_ptrs b) i = Some p ->
    Z.of_nat k < N b * base_element_size p ->
    nth_error (block p) k = Some x ->
    exists p', nth_error (base_ptrs b') i = Some p' /\ nth_error (block p') k = Some x.
Proof.
  intros Hoff Hsizes H.
  assert (Hkept : committed_kept b b').
  { revert H.
    apply (parse_line_ctrees_keeps (fun c => 0 <= dest_offset_to_element c)
             (committed_kept b)).
    - intros c cur b1 cur' b2. apply committed_kept_column.
    - exact Hoff.
    - apply committed_kept_refl.
    - intros _ st b1. now apply committed_kept_growth. }
  destruct Hkept as [HN Hkept]. split; [exact HN|].
  split; [exact (parse_line_ctrees_sizes _ _ _ _ _ _ H)|].
  intros i p k x Hp Hk Hx.
  destruct (Hkept i p k x Hp Hk Hx) as (p' & Hp' & _ & Hx'). now exists p'.
Qed.

Lemma parse_line_ctrees_keeps_committed_witness :
  Forall (fun c => 0 <= dest_offset_to_element c) (first_as I32)
  /\ Forall (fun size => 0 <= size * (2 * N one_row_written) < 2 ^ 64)
       (sizes one_row_written)
  /\ parse_line_ctrees always_ok "20" (first_as I32) one_row_written
     = Returned EXIT_SUCCESS two_rows_written
  /\ (N one_row_written <= N two_rows_written
      /\ sizes two_rows_written = sizes one_row_written
      /\ forall i p k x,
           nth_error (base_ptrs one_row_written) i = Some p ->
           Z.of_nat k < N one_row_written * base_element_size p ->
           nth_error (block p) k = Some x ->
           exists p',
             nth_error (base_ptrs two_rows_written) i = Some p' /\
             nth_error (block p') k = Some x).
Proof.
  assert (H1 : Forall (fun c => 0 <= dest_offset_to_element c) (first_as I32))
    by (repeat constructor; simpl; lia).
  assert (H2 : Forall (fun size => 0 <= size * (2 * N one_row_written) < 2 ^ 64)
                 (sizes one_row_written))
    by (repeat constructor; simpl; lia).
  split; [exact H1|]. split; [exact H2|]. split; [reflexivity|].
  apply (parse_line_ctrees_keeps_committed always_ok "20" (first_as I32)
           one_row_written EXIT_SUCCESS two_rows_written H1 H2).
  reflexivity.
Defined.

(** ** [parse_line_ctrees]: the row counter and the capacity *)

Lemma parse_columns_counters :
  forall cols cur b status b',
    parse_columns cols cur b = Returned status b' ->
    N b <= N b' <= N b + Z.of_nat (List.length cols) /\
    nallocated b' = nallocated b.
Proof.
  induction cols as [|c cols IH]; intros cur b status b' H.
  - inversion H; subst. cbn [List.length]. lia.
  - cbn [parse_columns] in H.
    destruct (parse_column c cur b) as [st [cur1 b1]| |] eqn:E; try discriminate.
    destruct (st =? EXIT_SUCCESS) eqn:S.
    + apply Z.eqb_eq in S; subst.
      destruct (parse_column_counter _ _ _ _ _ E) as [HN Hcap].
      destruct (IH _ _ _ _ H) as [HN' Hcap'].
      cbn [List.length]. split; [lia | congruence].
    + apply Z.eqb_neq in S. inversion H; subst.
      rewrite (parse_column_failure _ _ _ _ _ _ E S).
      cbn [List.length]. lia.
Qed.

(** X2: the counters after a call of [parse_line_ctrees], whatever it
    returns.  The row counter has advanced by at most the number of mapped
    columns, and by exactly that number when the call succeeds.  The
    recorded capacity is the old one, or twice the row counter when the
    counter had reached it; so with a row counter that is not negative the
    capacity never shrinks. *)
Theorem parse_line_ctrees_counters (realloc_ok : nat -> Z -> bool)
    (linebuf : string) (cols : ctrees_column_to_ptr) (b : base_ptr_info)
    (status : Z) (b' : base_ptr_info) :
  parse_line_ctrees realloc_ok linebuf cols b = Returned status b' ->
  N b <= N b' <= N b + ncols cols /\
  (status = EXIT_SUCCESS -> N b' = N b + ncols cols) /\
  (nallocated b' = nallocated b \/
   nallocated b = N b /\ nallocated b' = 2 * N b) /\
  (0 <= N b -> nallocated b <= nallocated b').
Proof.
  intros H.
  assert (Hsucc : status = EXIT_SUCCESS -> N b' = N b + ncols cols)
    by (intros ->; exact (parse_line_ctrees_counter _ _ _ _ _ H)).
  revert H. unfold parse_line_ctrees, ncols.
  destruct (nallocated b =? N b) eqn:E.
  - apply Z.eqb_eq in E. destruct (in_int64 _); [|discriminate].
    destruct (reallocate_base_ptrs _ _ _) as [st b1| |] eqn:R; try discriminate.
    apply reallocate_base_ptrs_returns in R.
    destruct R as (HN & Hcap & _).
    destruct (st =? EXIT_SUCCESS) eqn:S; intros H.
    + apply Z.eqb_eq in S; subst st.
      destruct Hcap as [[_ Hcap]|[Hst _]]; [|discriminate].
      apply parse_columns_counters in H. destruct H as [HN' Hcap'].
      repeat split; trivial; lia.
    + apply Z.eqb_neq in S. inversion H; subst.
      destruct Hcap as [[Hst _]|[_ Hcap]]; [contradiction|].
      repeat split; trivial; lia.
  - change (EXIT_SUCCESS =? EXIT_SUCCESS) with true. cbv iota. intros H.
    apply parse_columns_counters in H. destruct H as [HN' Hcap'].
    repeat split; trivial; lia.
Qed.

Lemma parse_line_ctrees_counters_witness :
  parse_line_ctrees always_ok "20" (first_as I32) one_row_written
    = Returned EXIT_SUCCESS two_rows_written
  /\ (N one_row_written <= N two_rows_written
        <= N one_row_written + ncols (first_as I32)
      /\ (EXIT_SUCCESS = EXIT_SUCCESS ->
          N two_rows_written = N one_row_written + ncols (first_as I32))
      /\ (nallocated two_rows_written = nallocated one_row_written \/
          nallocated one_row_written = N one_row_written /\
          nallocated two_rows_written = 2 * N one_row_written)
      /\ (0 <= N one_row_written ->
          nallocated one_row_written <= nallocated two_rows_written)).
Proof.
  split; [reflexivity|].
  apply (parse_line_ctrees_counters always_ok "20" (first_as I32)
           one_row_written EXIT_SUCCESS two_rows_written).
  reflexivity.
Defined.

(** ** [parse_line_ctrees]: the tokens it uses *)

Lemma skipn_cons_nth {A : Type} (l : list A) :
  forall k t ws,
    skipn k l = t :: ws ->
    nth_error l k = Some t /\ skipn (S k) l = ws /\ (k < List.length l)%nat.
Proof.
  induction l as [|x l IH]; intros k t ws H.
  - destruct k; discriminate.
  - destruct k as [|k].
    + inversion H; subst. cbn. repeat split. lia.
    + cbn [skipn] in H. destruct (IH _ _ _ H) as (H1 & H2 & H3).
      cbn [nth_error List.length]. repeat split; trivial. lia.
Qed.

Lemma at_column_start (row : string) :
  at_column (space_tokens row)
    {| icol := -1; string_ := Some row; token := None |}.
Proof.
  unfold at_column; cbn [icol string_ token words_from].
  repeat split; try reflexivity; lia.
Qed.

(** The loop [while (icol < wanted_col)] run [n] times moves the tokenizer
    [n] columns on, and fails exactly when the row has no such column. *)
Lemma advance_at_column (toks : list string) :
  forall n cur,
    at_column toks cur ->
    match advance n cur with
    | Some cur' => at_column toks cur' /\ icol cur' = icol cur + Z.of_nat n
    | None => Z.of_nat (List.length toks) <= icol cur + Z.of_nat n
    end.
Proof.
  induction n as [|n IH]; intros cur Hat.
  - cbn [advance]. split; [exact Hat | lia].
  - cbn [advance]. destruct Hat as (Hrange & Hwords & Htoken).
    pose proof (skip_empty_tokens_words (string_ cur)) as Hskip.
    destruct (skip_empty_tokens (string_ cur)) as [[t r]|].
    + rewrite Hwords in Hskip. apply skipn_cons_nth in Hskip.
      destruct Hskip as (Hnth & Hrest & Hlen).
      specialize (IH {| icol := icol cur + 1; string_ := r; token := Some t |}).
      cbn [icol] in IH.
      assert (Hat' : at_column toks
                       {| icol := icol cur + 1; string_ := r; token := Some t |}).
      { unfold at_column; cbn [icol string_ token].
        repeat split; try lia.
        - replace (Z.to_nat (icol cur + 1 + 1)) with (S (Z.to_nat (icol cur + 1)))
            by lia.
          now rewrite Hrest.
        - replace (icol cur + 1 <? 0) with false by (symmetry; apply Z.ltb_ge; lia).
          now rewrite Hnth. }
      specialize (IH Hat').
      destruct (advance n _) as [cur'|]; [|lia].
      destruct IH as [IH1 IH2]. split; [exact IH1 | lia].
    + rewrite Hwords in Hskip.
      assert (List.length (skipn (Z.to_nat (icol cur + 1)) toks) = 0%nat)
        by now rewrite Hskip.
      rewrite length_skipn in *. lia.
Qed.

Lemma convert_handled_only (wanted_type : Z) (tok : string) (v : value) :
  convert wanted_type tok = Some v ->
  wanted_type = I32 \/ wanted_type = I64 \/ wanted_type = F32 \/ wanted_type = F64.
Proof.
  unfold convert.
  destruct (Z.eqb_spec wanted_type F32); [tauto|].
  destruct (Z.eqb_spec wanted_type F64); [tauto|].
  destruct (Z.eqb_spec wanted_type I32); [tauto|].
  destruct (Z.eqb_spec wanted_type I64); [tauto|discriminate].
Qed.

(** What a successful column has found, in terms of the row's tokens. *)
Lemma parse_column_at_column (toks : list string) (c : column)
    (cur cur' : cursor) (b b' : base_ptr_info) :
  at_column toks cur ->
  parse_column c cur b = Returned EXIT_SUCCESS (cur', b') ->
  at_column toks cur' /\
  icol cur' = Z.max (icol cur) (column_number c) /\
  0 <= icol cur' /\
  valid_entry (sizes b) c /\
  sizes b' = sizes b /\
  write_token toks (Some (icol cur, b)) c = Some (icol cur', b').
Proof.
  intros Hat H. apply parse_column_success in H.
  destruct H as (p & tok & v & m & Hidx & Hp & Hstride & Hoff & Hadv & Htok
                 & Hconv & Hstore & ->).
  pose proof (advance_at_column toks (Z.to_nat (column_number c - icol cur))
                cur Hat) as Hadv'.
  rewrite Hadv in Hadv'. destruct Hadv' as [Hat' Hicol].
  assert (Hmax : icol cur' = Z.max (icol cur) (column_number c)) by lia.
  pose proof Hat' as (Hrange & Hwords & Htoken).
  rewrite Htok in Htoken.
  destruct (icol cur' <? 0) eqn:Eneg; [discriminate|].
  apply Z.ltb_ge in Eneg.
  split; [exact Hat'|].
  repeat split; trivial; try lia.
  - exists (base_element_size p). repeat split; trivial.
    unfold sizes. now rewrite nth_error_map, Hp.
  - eapply convert_handled_only; eauto.
  - unfold sizes. cbn [base_ptrs]. apply set_block_sizes.
  - unfold write_token. rewrite <- Hmax.
    replace (icol cur' <? 0) with false by (symmetry; now apply Z.ltb_ge).
    now rewrite <- Htoken, Hp, Hconv, Hstore.
Qed.

Lemma parse_columns_at_column (toks : list string) :
  forall cols cur b b',
    at_column toks cur ->
    parse_columns cols cur b = Returned EXIT_SUCCESS b' ->
    Forall (fun c => column_number c < Z.of_nat (List.length toks)) cols /\
    Forall (valid_entry (sizes b)) cols /\
    exists i, fold_left (write_token toks) cols (Some (icol cur, b)) = Some (i, b').
Proof.
  induction cols as [|c cols IH]; intros cur b b' Hat H.
  - inversion H; subst. repeat split; try constructor. now exists (icol cur).
  - cbn [parse_columns] in H.
    destruct (parse_column c cur b) as [st [cur1 b1]| |] eqn:E; try discriminate.
    destruct (st =? EXIT_SUCCESS) eqn:S.
    2:{ inversion H; subst. discriminate. }
    apply Z.eqb_eq in S; subst st.
    destruct (parse_column_at_column toks _ _ _ _ _ Hat E)
      as (Hat1 & Hmax & Hpos & Hvalid & Hsizes & Hwrite).
    destruct (IH _ _ _ Hat1 H) as (Hcols & Hvalids & i & Hfold).
    rewrite Hsizes in Hvalids.
    repeat split.
    + constructor; [|exact Hcols]. destruct Hat1 as (Hrange & _). lia.
    + now constructor.
    + exists i. cbn [fold_left]. now rewrite Hwrite.
Qed.

(** The columns of a successful call are parsed in the state
    [grow_if_full b]. *)
Lemma parse_line_ctrees_columns (realloc_ok : nat -> Z -> bool) (linebuf : string)
    (cols : ctrees_column_to_ptr) (b b' : base_ptr_info) :
  parse_line_ctrees realloc_ok linebuf cols b = Returned EXIT_SUCCESS b' ->
  parse_columns cols {| icol := -1; string_ := Some linebuf; token := None |}
    (grow_if_full b)
  = Returned EXIT_SUCCESS b'.
Proof.
  unfold parse_line_ctrees, grow_if_full.
  destruct (nallocated b =? N b).
  - destruct (in_int64 _); [|discriminate].
    destruct (reallocate_base_ptrs _ _ _) as [st b1| |] eqn:R; try discriminate.
    destruct (st =? EXIT_SUCCESS) eqn:S.
    + apply Z.eqb_eq in S; subst st.
      apply reallocate_base_ptrs_success in R. now subst b1.
    + intros H. inversion H; subst. discriminate.
  - now change (EXIT_SUCCESS =? EXIT_SUCCESS) with true.
Qed.

Lemma grow_if_full_sizes (b : base_ptr_info) : sizes (grow_if_full b) = sizes b.
Proof.
  unfold grow_if_full, sizes. destruct (nallocated b =? N b); [|reflexivity].
  cbn [base_ptrs]. now rewrite map_map.
Qed.

(** X3: a row with too few tokens is never accepted.  When
    [parse_line_ctrees] returns [EXIT_SUCCESS], the row has a
    space-separated token for every mapped file column: every
    [column_number] is smaller than the number of tokens. *)
Theorem parse_line_ctrees_needs_tokens (realloc_ok : nat -> Z -> bool)
    (linebuf : string) (cols : ctrees_column_to_ptr) (b b' : base_ptr_info) :
  parse_line_ctrees realloc_ok linebuf cols b = Returned EXIT_SUCCESS b' ->
  Forall (fun c => column_number c < Z.of_nat (List.length (space_tokens linebuf)))
    cols.
Proof.
  intros H. apply parse_line_ctrees_columns in H.
  exact (proj1 (parse_columns_at_column _ _ _ _ _ (at_column_start linebuf) H)).
Qed.

(** X4: the mapping is validated as it is used.  When [parse_line_ctrees]
    returns [EXIT_SUCCESS], every mapping entry names an existing group
    whose element size is at least 4 bytes, has a byte offset of at most
    that size, and has one of the types I32, I64, F32 and F64. *)
Theorem parse_line_ctrees_validates (realloc_ok : nat -> Z -> bool)
    (linebuf : string) (cols : ctrees_column_to_ptr) (b b' : base_ptr_info) :
  parse_line_ctrees realloc_ok linebuf cols b = Returned EXIT_SUCCESS b' ->
  Forall (valid_entry (sizes b)) cols.
Proof.
  intros H. apply parse_line_ctrees_columns in H.
  rewrite <- grow_if_full_sizes.
  exact (proj1 (proj2 (parse_columns_at_column _ _ _ _ _ (at_column_start linebuf) H))).
Qed.

(** X5: which token goes where.  When [parse_line_ctrees] returns
    [EXIT_SUCCESS], the storage it leaves is the one obtained from the
    state after the growth by taking the mapping entries in order and, for
    each, storing the converted token of file column
    [max (columns of the entries so far)] at the entry's offset in row [N]
    of its group and advancing [N]; for a mapping in ascending order that
    is the token of the entry's own column. *)
Theorem parse_line_ctrees_writes (realloc_ok : nat -> Z -> bool)
    (linebuf : string) (cols : ctrees_column_to_ptr) (b b' : base_ptr_info) :
  parse_line_ctrees realloc_ok linebuf cols b = Returned EXIT_SUCCESS b' ->
  exists i,
    fold_left (write_token (space_tokens linebuf)) cols (Some (-1, grow_if_full b))
    = Some (i, b').
Proof.
  intros H. apply parse_line_ctrees_columns in H.
  exact (proj2 (proj2 (parse_columns_at_column _ _ _ _ _ (at_column_start linebuf) H))).
Qed.

Lemma parse_line_ctrees_needs_tokens_witness :
  parse_line_ctrees always_ok "1 2.5 3 4 5" first_and_third int_array
    = Returned EXIT_SUCCESS first_and_third_written
  /\ Forall (fun c => column_number c
                      < Z.of_nat (List.length (space_tokens "1 2.5 3 4 5")))
       first_and_third.
Proof.
  split; [reflexivity|].
  apply (parse_line_ctrees_needs_tokens always_ok "1 2.5 3 4 5" first_and_third
           int_array first_and_third_written).
  reflexivity.
Defined.

Lemma parse_line_ctrees_validates_witness :
  parse_line_ctrees always_ok "1 2.5 3 4 5" first_and_third int_array
    = Returned EXIT_SUCCESS first_and_third_written
  /\ Forall (valid_entry (sizes int_array)) first_and_third.
Proof.
  split; [reflexivity|].
  apply (parse_line_ctrees_validates always_ok "1 2.5 3 4 5" first_and_third
           int_array first_and_third_written).
  reflexivity.
Defined.

Lemma parse_line_ctrees_writes_witness :
  parse_line_ctrees always_ok "1 2.5 3 4 5" first_and_third int_array
    = Returned EXIT_SUCCESS first_and_third_written
  /\ exists i,
       fold_left (write_token (space_tokens "1 2.5 3 4 5")) first_and_third
         (Some (-1, grow_if_full int_array))
       = Some (i, first_and_third_written).
Proof.
  split; [reflexivity|].
  apply (parse_line_ctrees_writes always_ok "1 2.5 3 4 5" first_and_third
           int_array first_and_third_written).
  reflexivity.
Defined.

(** ** [reallocate_base_ptrs]: success *)

Lemma reallocate_loop_served (realloc_ok : nat -> Z -> bool) (new_N : Z) :
  forall ptrs i,
    fst (reallocate_loop realloc_ok i ptrs new_N) = true <->
    forall j p,
      nth_error ptrs j = Some p ->
      realloc_ok (i + j)%nat ((base_element_size p * new_N) mod 2 ^ 64) = true.
Proof.
  induction ptrs as [|p rest IH]; intros i; cbn [reallocate_loop].
  - split; [|reflexivity]. intros _ j p H. destruct j; discriminate.
  - destruct (realloc_ok i _) eqn:Ok.
    + specialize (IH (S i)).
      destruct (reallocate_loop realloc_ok (S i) rest new_N) as [ok rest'].
      cbn [fst] in *. rewrite IH. split.
      * intros H [|j] q Hq.
        -- inversion Hq; subst. now rewrite Nat.add_0_r.
        -- replace (i + S j)%nat with (S i + j)%nat by lia. now apply H.
      * intros H j q Hq. replace (S i + j)%nat with (i + S j)%nat by lia.
        now apply H.
    + cbn [fst]. split; [discriminate|]. intros H.
      specialize (H 0%nat p eq_refl). rewrite Nat.add_0_r in H. congruence.
Qed.

(** X6: [reallocate_base_ptrs] returns [EXIT_SUCCESS] exactly when [realloc]
    serves every group; one refusal makes the call fail. *)
Theorem reallocate_base_ptrs_succeeds_iff (realloc_ok : nat -> Z -> bool)
    (b : base_ptr_info) (new_N : Z) :
  status_of (reallocate_base_ptrs realloc_ok b new_N) = Some EXIT_SUCCESS <->
  forall i p,
    nth_error (base_ptrs b) i = Some p ->
    realloc_ok i ((base_element_size p * new_N) mod 2 ^ 64) = true.
Proof.
  rewrite <- (reallocate_loop_served realloc_ok new_N (base_ptrs b) 0).
  unfold reallocate_base_ptrs.
  destruct (reallocate_loop realloc_ok 0 (base_ptrs b) new_N) as [[|] ptrs];
    cbn [fst status_of]; split; intros H; try reflexivity; discriminate.
Qed.

(** X7: a successful [reallocate_base_ptrs] records the capacity [new_N],
    leaves the row counter and the element sizes alone, and gives every
    group a block of [size * new_N] bytes (modulo [2^64]) in which the
    bytes present both before and after keep their values. *)
Theorem reallocate_base_ptrs_grows (realloc_ok : nat -> Z -> bool)
    (b : base_ptr_info) (new_N : Z) (b' : base_ptr_info) :
  reallocate_base_ptrs realloc_ok b new_N = Returned EXIT_SUCCESS b' ->
  N b' = N b /\ nallocated b' = new_N /\ sizes b' = sizes b /\
  forall i p,
    nth_error (base_ptrs b) i = Some p ->
    exists p',
      nth_error (base_ptrs b') i = Some p' /\
      Z.of_nat (List.length (block p')) = (base_element_size p * new_N) mod 2 ^ 64 /\
      forall k,
        (k < List.length (block p))%nat -> (k < List.length (block p'))%nat ->
        nth_error (block p') k = nth_error (block p) k.
Proof.
  intros H. apply reallocate_base_ptrs_success in H. subst b'.
  cbn [N nallocated base_ptrs]. repeat split.
  - unfold sizes. cbn [base_ptrs]. now rewrite map_map.
  - intros i p Hp. exists (grown new_N p).
    rewrite nth_error_map, Hp. split; [reflexivity|].
    cbn [grown block]. rewrite realloc_length.
    assert (0 <= (base_element_size p * new_N) mod 2 ^ 64)
      by (apply Z.mod_pos_bound; lia).
    split; [lia|].
    intros k Hk Hk'. apply realloc_keeps; [exact Hk | lia].
Qed.

Lemma reallocate_base_ptrs_grows_witness :
  reallocate_base_ptrs always_ok one_row_written 2
    = Returned EXIT_SUCCESS
        {| base_ptrs :=
             [ {| block := encode (Vint32 10) ++ repeat Mundef 4;
                  base_element_size := 4 |} ];
           N := 1; nallocated := 2 |}
  /\ exists b',
       reallocate_base_ptrs always_ok one_row_written 2 = Returned EXIT_SUCCESS b' /\
       N b' = N one_row_written /\ nallocated b' = 2 /\
       sizes b' = sizes one_row_written /\
       forall i p,
         nth_error (base_ptrs one_row_written) i = Some p ->
         exists p',
           nth_error (base_ptrs b') i = Some p' /\
           Z.of_nat (List.length (block p')) = (base_element_size p * 2) mod 2 ^ 64 /\
           forall k,
             (k < List.length (block p))%nat -> (k < List.length (block p'))%nat ->
             nth_error (block p') k = nth_error (block p) k.
Proof.
  split; [reflexivity|].
  eexists. split; [reflexivity|].
  apply (reallocate_base_ptrs_grows always_ok one_row_written 2). reflexivity.
Defined.

(** ** [match_column_name] *)

Lemma find_column_first (wanted : string) :
  forall names j0,
    0 <= j0 ->
    find_column wanted names j0 = -1 /\ absent names wanted = true
    \/ exists n,
         j0 <= find_column wanted names j0 /\
         nth_error names (Z.to_nat (find_column wanted names j0 - j0)) = Some n /\
         strcasecmp wanted n = 0 /\
         forall k n',
           (k < Z.to_nat (find_column wanted names j0 - j0))%nat ->
           nth_error names k = Some n' -> strcasecmp wanted n' <> 0.
Proof.
  induction names as [|n names IH]; intros j0 Hj0; cbn [find_column absent forallb].
  - now left.
  - destruct (Z.eqb_spec (strcasecmp wanted n) 0) as [E|E]; cbn [negb andb].
    + right. exists n. rewrite Z.sub_diag. repeat split; trivial; try lia.
    + destruct (IH (j0 + 1) ltac:(lia)) as [[H1 H2]|(m & H1 & H2 & H3 & H4)].
      * left. now split.
      * right. exists m.
        replace (Z.to_nat (find_column wanted names (j0 + 1) - j0))
          with (S (Z.to_nat (find_column wanted names (j0 + 1) - (j0 + 1))))
          by lia.
        repeat split; trivial; try lia.
        intros [|k] n' Hk Hn'.
        -- inversion Hn'; now subst.
        -- apply (H4 k n'); [lia | exact Hn'].
Qed.

(** X8: [match_column_name] gives, for each wanted name, the position of the
    first column of the file whose name equals it up to case, and [-1] when
    there is none; the result has one entry per wanted name. *)
Theorem match_column_name_first_match (wanted_columns names : list string)
    (i : nat) (wanted : string) :
  nth_error wanted_columns i = Some wanted ->
  List.length (match_column_name wanted_columns names) = List.length wanted_columns /\
  exists j,
    nth_error (match_column_name wanted_columns names) i = Some j /\
    (j = -1 /\ absent names wanted = true
     \/ exists n,
          0 <= j /\ nth_error names (Z.to_nat j) = Some n /\
          strcasecmp wanted n = 0 /\
          forall k n',
            (k < Z.to_nat j)%nat -> nth_error names k = Some n' ->
            strcasecmp wanted n' <> 0).
Proof.
  intros H. unfold match_column_name. rewrite length_map. split; [reflexivity|].
  exists (find_column wanted names 0). rewrite nth_error_map, H.
  split; [reflexivity|].
  destruct (find_column_first wanted names 0 ltac:(lia))
    as [[H1 H2]|(n & H1 & H2 & H3 & H4)].
  - left. now split.
  - right. exists n. rewrite Z.sub_0_r in *. now repeat split.
Qed.

Lemma match_column_name_first_match_witness :
  nth_error ["C"; "zz"; "a"] 0 = Some "C"
  /\ (List.length (match_column_name ["C"; "zz"; "a"] ["a"; "b"; "c"])
      = List.length ["C"; "zz"; "a"] /\
      exists j,
        nth_error (match_column_name ["C"; "zz"; "a"] ["a"; "b"; "c"]) 0 = Some j /\
        (j = -1 /\ absent ["a"; "b"; "c"] "C" = true
         \/ exists n,
              0 <= j /\ nth_error ["a"; "b"; "c"] (Z.to_nat j) = Some n /\
              strcasecmp "C" n = 0 /\
              forall k n',
                (k < Z.to_nat j)%nat -> nth_error ["a"; "b"; "c"] k = Some n' ->
                strcasecmp "C" n' <> 0)).
Proof.
  split; [reflexivity|].
  apply (match_column_name_first_match ["C"; "zz"; "a"] ["a"; "b"; "c"] 0 "C").
  reflexivity.
Defined.

(** ** [parse_header_ctrees]: bounds and errors *)

Lemma find_column_bound (wanted : string) :
  forall names j0,
    0 <= j0 ->
    find_column wanted names j0 = -1
    \/ j0 <= find_column wanted names j0 < j0 + Z.of_nat (List.length names).
Proof.
  induction names as [|n names IH]; intros j0 Hj0; cbn [find_column List.length].
  - now left.
  - destruct (strcasecmp wanted n =? 0); [right; lia|].
    destruct (IH (j0 + 1) ltac:(lia)); [now left | right; lia].
Qed.

Lemma filter_length_le {A : Type} (f : A -> bool) (l : list A) :
  (List.length (filter f l) <= List.length l)%nat.
Proof.
  induction l as [|x l IH]; cbn [filter List.length]; [lia|].
  destruct (f x); cbn [List.length]; lia.
Qed.

(** X9: the mapping of a successful [parse_header_ctrees] fits the fixed
    arrays and the file: it has at most as many entries as were requested,
    at most [PARSE_CTREES_MAX_NCOLS], and every file column index in it is a
    position of the header's column names. *)
Theorem parse_header_ctrees_bounds (file : option (list ascii))
    (st st' : header_state) :
  parse_header_ctrees file st = Returned EXIT_SUCCESS st' ->
  ncols (column_info st') <= Z.of_nat (List.length (requests st))
    <= PARSE_CTREES_MAX_NCOLS /\
  exists names,
    header_column_names file = Returned EXIT_SUCCESS names /\
    Forall (fun c => 0 <= column_number c < Z.of_nat (List.length names))
      (column_info st').
Proof.
  intros H.
  assert (Hn : Z.of_nat (List.length (requests st)) <= PARSE_CTREES_MAX_NCOLS).
  { unfold parse_header_ctrees in H.
    destruct (_ >? _) eqn:E; [inversion H; discriminate|].
    rewrite Z.gtb_ltb in E. apply Z.ltb_ge in E. exact E. }
  apply parse_header_ctrees_success in H. destruct H as (names & Hnames & ->).
  cbn [column_info]. rewrite assign_found_filter. split.
  - split; [|exact Hn]. unfold ncols. rewrite length_map.
    pose proof (filter_length_le found
                  (SGLIB_ARRAY_QUICK_SORT (paired names (requests st)))) as Hle.
    rewrite <- (Permutation_length (sort_perm (paired names (requests st)))) in Hle.
    assert (List.length (paired names (requests st)) = List.length (requests st))
      by (unfold paired; apply length_map).
    lia.
  - exists names. split; [exact Hnames|].
    apply Forall_map, Forall_forall. intros p Hp.
    apply filter_In in Hp. destruct Hp as [Hin Hfound].
    pose proof (sorted_keys names (requests st)) as Hkeys.
    rewrite Forall_forall in Hkeys. specialize (Hkeys p Hin).
    unfold found in Hfound. apply negb_true_iff, Z.eqb_neq in Hfound.
    cbn [entry resolved column_number]. rewrite Hkeys in *. unfold resolve in *.
    destruct (find_column_bound (req_column_name (snd p)) names 0 ltac:(lia));
      [contradiction | lia].
Qed.

Lemma parse_header_ctrees_bounds_witness :
  parse_header_ctrees abc_file ask_a_zz_c
    = Returned EXIT_SUCCESS
        {| requests := [mk_request "zz" I32 0 4; mk_request "a" I32 0 0;
                        mk_request "c" I32 0 8];
           column_info := [mk_column 0 I32 0 0; mk_column 2 I32 8 0] |}
  /\ exists st',
       parse_header_ctrees abc_file ask_a_zz_c = Returned EXIT_SUCCESS st' /\
       ncols (column_info st') <= Z.of_nat (List.length (requests ask_a_zz_c))
         <= PARSE_CTREES_MAX_NCOLS /\
       exists names,
         header_column_names abc_file = Returned EXIT_SUCCESS names /\
         Forall (fun c => 0 <= column_number c < Z.of_nat (List.length names))
           (column_info st').
Proof.
  split; [reflexivity|].
  eexists. split; [reflexivity|].
  apply (parse_header_ctrees_bounds abc_file ask_a_zz_c). reflexivity.
Defined.

Lemma cstring_terminated (l : list ascii) :
  exists s, cstring (l ++ [NUL]) = Some s.
Proof.
  induction l as [|c l [s IH]]; cbn [app cstring].
  - exists EmptyString. reflexivity.
  - destruct (Ascii.eqb c NUL); [now eexists|].
    rewrite IH. now eexists.
Qed.

(** X10: the calls that [parse_header_ctrees] refuses before it looks at the
    column names.  More than [PARSE_CTREES_MAX_NCOLS] requests, a file that
    cannot be opened, an empty file, and a first line that does not start
    with ['#'] all give [EXIT_FAILURE], and the caller's arrays and
    [*column_info] are as before. *)
Theorem parse_header_ctrees_rejects (file : option (list ascii)) (st : header_state) :
  Z.of_nat (List.length (requests st)) > PARSE_CTREES_MAX_NCOLS
  \/ file = None
  \/ (exists content, file = Some content /\ hd_error content <> Some "#"%char) ->
  parse_header_ctrees file st = Returned EXIT_FAILURE st.
Proof.
  intros H. unfold parse_header_ctrees.
  destruct (_ >? _) eqn:E; [reflexivity|].
  destruct H as [H|[->|(content & -> & H)]].
  - rewrite Z.gtb_ltb in E. apply Z.ltb_ge in E. lia.
  - reflexivity.
  - assert (Hnames : header_column_names (Some content) = Returned EXIT_FAILURE []).
    { unfold header_column_names, fgets.
      change (Z.to_nat PARSE_CTREES_MAXBUFSIZE - 1)%nat with (S 1022).
      generalize 1022%nat. intros n.
      destruct content as [|c rest]; [reflexivity|].
      cbn [fgets_chars].
      assert (Hc : Ascii.eqb c "#" = false)
        by (apply Ascii.eqb_neq; intros ->; now apply H).
      destruct (Ascii.eqb c newline) eqn:Enl.
      - cbn [app cstring]. destruct (Ascii.eqb c NUL); [reflexivity|].
        change (Ascii.eqb NUL NUL) with true. cbn [option_map]. now rewrite Hc.
      - cbn [app cstring]. destruct (Ascii.eqb c NUL); [reflexivity|].
        destruct (cstring_terminated (fgets_chars n rest)) as [s Hs].
        rewrite Hs. cbn [option_map]. now rewrite Hc. }
    rewrite Hnames. reflexivity.
Qed.

Lemma parse_header_ctrees_rejects_witness :
  (Z.of_nat (List.length (requests ask_c_a)) > PARSE_CTREES_MAX_NCOLS
   \/ Some (list_ascii_of_string "scale id") = None
   \/ exists content,
        Some (list_ascii_of_string "scale id") = Some content /\
        hd_error content <> Some "#"%char)
  /\ parse_header_ctrees (Some (list_ascii_of_string "scale id")) ask_c_a
     = Returned EXIT_FAILURE ask_c_a.
Proof.
  assert (H : Z.of_nat (List.length (requests ask_c_a)) > PARSE_CTREES_MAX_NCOLS
              \/ Some (list_ascii_of_string "scale id") = None
              \/ exists content,
                   Some (list_ascii_of_string "scale id") = Some content /\
                   hd_error content <> Some "#"%char).
  { right. right. eexists. split; [reflexivity|]. simpl. discriminate. }
  split; [exact H|].
  apply (parse_header_ctrees_rejects (Some (list_ascii_of_string "scale id")) ask_c_a H).
Defined.

(** ** [parse_header_ctrees]: the shape of the column names *)

Lemma split_at_delim_token (delim : string) :
  forall s t r,
    split_at_delim delim s = (t, r) ->
    (String.length t <= String.length s)%nat /\
    free_of (is_delim delim) t /\
    forall c, In c (list_ascii_of_string t) -> In c (list_ascii_of_string s).
Proof.
  induction s as [|ch s IH]; intros t r H; cbn [split_at_delim] in H.
  - inversion H; subst. repeat split; trivial. intros c [].
  - destruct (is_delim delim ch) eqn:E.
    + inversion H; subst. cbn [String.length]. repeat split; try lia.
      * intros c [].
      * intros c [].
    + destruct (split_at_delim delim s) as [t' r'] eqn:E'.
      inversion H; subst. destruct (IH _ _ eq_refl) as (H1 & H2 & H3).
      cbn [String.length list_ascii_of_string]. repeat split; try lia.
      * intros c [<-|Hc]; [exact E | now apply H2].
      * intros c [<-|Hc]; [now left | right; now apply H3].
Qed.

Lemma split_on_tokens_free (sep : ascii -> bool) :
  forall s tok, In tok (split_on sep s) -> free_of sep tok.
Proof.
  induction s as [|ch s IH]; intros tok H; cbn [split_on] in H.
  - destruct H as [<-|[]]. intros c [].
  - destruct (sep ch) eqn:E.
    + destruct H as [<-|H]; [intros c [] | now apply IH].
    + destruct (split_on sep s) as [|t ts] eqn:Es.
      * destruct H as [<-|[]]. intros c [<-|[]]. exact E.
      * destruct H as [<-|H].
        -- intros c [<-|Hc]; [exact E|]. apply (IH t); [now left | exact Hc].
        -- apply IH. now right.
Qed.

Lemma split_on_nonempty (sep : ascii -> bool) (s : string) :
  (1 <= List.length (split_on sep s))%nat.
Proof.
  destruct s as [|ch s]; cbn [split_on]; [cbn; lia|].
  destruct (sep ch); [cbn; lia|].
  destruct (split_on sep s); cbn; lia.
Qed.

Lemma header_token_name (totncols : Z) (tok : string) (col : Z) (name : string) :
  header_token totncols tok col = Returned EXIT_SUCCESS name ->
  name = fst (split_at_delim "(" tok) /\
  Z.of_nat (String.length tok) < PARSE_CTREES_MAX_COLNAME_LEN /\
  col < totncols.
Proof.
  unfold header_token. fold_status.
  destruct (negb _) eqn:E1; [discriminate|].
  apply negb_false_iff, andb_true_iff in E1. destruct E1 as [_ E1].
  apply Z.ltb_lt in E1.
  destruct (split_at_delim "(" tok) as [colname after].
  destruct (negb (col <? totncols)) eqn:E2.
  - destruct (_ && _)%bool; [discriminate|].
    intros H. repeat case_match; discriminate.
  - apply negb_false_iff, Z.ltb_lt in E2. cbn [andb].
    intros H. repeat case_match; try discriminate;
      inversion H; subst; now repeat split.
Qed.

Lemma header_names_shape (totncols : Z) :
  forall tokens col names names',
    Forall (free_of (is_delim delimiters)) tokens ->
    Forall name_shape names ->
    header_names totncols tokens col names = Returned EXIT_SUCCESS names' ->
    Forall name_shape names' /\
    Z.of_nat (List.length names') = Z.of_nat (List.length names) + (totncols - col).
Proof.
  induction tokens as [|tok tokens IH]; intros col names names' Hfree Hnames H;
    cbn [header_names] in H.
  - destruct (Z.eqb_spec col totncols); [|discriminate].
    inversion H; subst. split; [exact Hnames | lia].
  - inversion Hfree as [|? ? Htok Htokens]; subst.
    destruct (Nat.eqb _ 0); [now apply (IH col names)|].
    destruct (header_token totncols tok col) as [st name| |] eqn:E; try discriminate.
    destruct (st =? EXIT_SUCCESS) eqn:S; [|inversion H; subst; discriminate].
    apply Z.eqb_eq in S; subst st.
    apply header_token_name in E. destruct E as (Hname & Hlen & Hcol).
    destruct (split_at_delim "(" tok) as [t r] eqn:Esplit. cbn [fst] in Hname. subst t.
    destruct (split_at_delim_token _ _ _ _ Esplit) as (H1 & H2 & H3).
    apply IH in H; [|exact Htokens|].
    + destruct H as [Hshape Hcount]. split; [exact Hshape|].
      rewrite length_app in Hcount. cbn [List.length] in Hcount. lia.
    + apply Forall_app. split; [exact Hnames|].
      constructor; [|constructor]. split; [lia|].
      intros c Hc. unfold is_delim, name_stops. cbn [list_ascii_of_string existsb].
      apply orb_false_iff. split.
      * specialize (H2 c Hc). unfold is_delim in H2. cbn in H2.
        now rewrite orb_false_r in H2.
      * apply (Htok c). now apply H3.
Qed.

(** X11: the column names of an accepted header line.  There is at least one,
    each is shorter than [PARSE_CTREES_MAX_COLNAME_LEN] (so that it fits
    its array with the terminator), and none contains a space, a comma, a
    newline, ['#'] or ['(']. *)
Theorem header_column_names_shape (file : option (list ascii)) (names : list string) :
  header_column_names file = Returned EXIT_SUCCESS names ->
  names <> [] /\
  Forall (fun n => Z.of_nat (String.length n) < PARSE_CTREES_MAX_COLNAME_LEN /\
                   free_of (is_delim name_stops) n) names.
Proof.
  unfold header_column_names. intros H.
  destruct file as [content|]; [|discriminate].
  destruct (fgets _ _) as [linebuf|]; [|discriminate].
  destruct (cstring linebuf) as [[|c0 line]|]; try discriminate.
  destruct (negb _); [discriminate|].
  apply header_names_shape in H.
  - destruct H as [Hshape Hcount]. split; [|exact Hshape].
    pose proof (split_on_nonempty (is_delim header_delims) (String c0 line)) as Hne.
    unfold strsep_tokens in Hcount. cbn [List.length] in Hcount.
    intros ->. cbn [List.length] in Hcount. lia.
  - apply Forall_forall. intros tok Htok.
    exact (split_on_tokens_free _ _ _ Htok).
  - constructor.
Qed.

Lemma header_column_names_shape_witness :
  header_column_names abc_file = Returned EXIT_SUCCESS ["a"; "b"; "c"]
  /\ (["a"; "b"; "c"] <> [] /\
      Forall (fun n => Z.of_nat (String.length n) < PARSE_CTREES_MAX_COLNAME_LEN /\
                       free_of (is_delim name_stops) n) ["a"; "b"; "c"]).
Proof.
  split; [reflexivity|].
  apply (header_column_names_shape abc_file ["a"; "b"; "c"]). reflexivity.
Defined.

(** ** [read_single_tree_ctrees]: the marker line, the end of the file *)

Lemma skip_first_tree_line_newline :
  forall marker rest offset,
    Forall (fun c => c <> newline) marker ->
    skip_first_tree_line (marker ++ newline :: rest) offset
    = offset + Z.of_nat (List.length marker) + 1.
Proof.
  induction marker as [|c marker IH]; intros rest offset H;
    cbn [app skip_first_tree_line List.length].
  - change (Ascii.eqb newline newline) with true. cbv iota. lia.
  - inversion H as [|? ? Hc Hrest]; subst.
    rewrite (proj2 (Ascii.eqb_neq _ _) Hc), IH by exact Hrest. lia.
Qed.

Lemma pread_at (before rest : list ascii) (count : nat) :
  pread (Some (before ++ rest)) count (Z.of_nat (List.length before))
  = Some (firstn count rest).
Proof.
  unfold pread.
  replace (Z.of_nat (List.length before) <? 0) with false
    by (symmetry; apply Z.ltb_ge; lia).
  rewrite Nat2Z.id, skipn_app, skipn_all, Nat.sub_diag. reflexivity.
Qed.

(** The start of a call on a file in which the offset points at a marker
    line of fewer than 30 characters: the chunks are read from the byte
    after the newline of that line. *)
Lemma read_single_tree_ctrees_start (realloc_ok : nat -> Z -> bool)
    (sfl srb : nat -> ascii) (slb : nat -> nat -> ascii) (fuel : nat)
    (before marker body : list ascii) (cols : ctrees_column_to_ptr)
    (b : base_ptr_info) :
  ncols cols <= PARSE_CTREES_MAX_NCOLS ->
  Forall (fun c => c <> newline) marker ->
  (List.length marker < num_chars_first_tree_line)%nat ->
  read_single_tree_ctrees realloc_ok sfl srb slb fuel
    (Some (before ++ marker ++ newline :: body))
    (Z.of_nat (List.length before)) cols b
  = read_chunks realloc_ok slb fuel
      (Some (before ++ marker ++ newline :: body)) cols
      (automatic_array srb sizeof_read_buffer)
      {| tree_info := b;
         tree_offset :=
           Z.of_nat (List.length before) + Z.of_nat (List.length marker) + 1;
         tree_handed := [] |}.
Proof.
  intros Hn Hmarker Hlen. unfold read_single_tree_ctrees.
  replace (ncols cols >? PARSE_CTREES_MAX_NCOLS) with false
    by (symmetry; rewrite Z.gtb_ltb; apply Z.ltb_ge; exact Hn).
  rewrite pread_at.
  rewrite firstn_app.
  rewrite (firstn_all2 (n := num_chars_first_tree_line) marker) by lia.
  destruct (num_chars_first_tree_line - List.length marker)%nat as [|k] eqn:Ek; [lia|].
  cbn [firstn].
  destruct (marker ++ newline :: firstn k body) as [|c data] eqn:Edata.
  { destruct marker; discriminate. }
  rewrite <- Edata. unfold copy_into. rewrite <- app_assoc. cbn [app].
  now rewrite skip_first_tree_line_newline.
Qed.

(** X12: an empty block at the end of the file.  When the file ends with the
    marker line at [offset], the call returns [EXIT_SUCCESS] without
    calling the line parser; the storage and the counters are untouched. *)
Theorem read_single_tree_ctrees_empty_block (realloc_ok : nat -> Z -> bool)
    (sfl srb : nat -> ascii) (slb : nat -> nat -> ascii) (fuel : nat)
    (before marker : list ascii) (cols : ctrees_column_to_ptr)
    (b : base_ptr_info) :
  ncols cols <= PARSE_CTREES_MAX_NCOLS ->
  Forall (fun c => c <> newline) marker ->
  (List.length marker < num_chars_first_tree_line)%nat ->
  read_single_tree_ctrees realloc_ok sfl srb slb (S fuel)
    (Some (before ++ marker ++ [newline]))
    (Z.of_nat (List.length before)) cols b
  = Returned EXIT_SUCCESS
      {| tree_info := b;
         tree_offset :=
           Z.of_nat (List.length before) + Z.of_nat (List.length marker) + 1;
         tree_handed := [] |}.
Proof.
  intros Hn Hmarker Hlen.
  rewrite read_single_tree_ctrees_start by assumption.
  cbn [read_chunks tree_offset].
  replace (Z.of_nat (List.length before) + Z.of_nat (List.length marker) + 1)
    with (Z.of_nat (List.length (before ++ marker ++ [newline])))
    by (rewrite !length_app; cbn [List.length]; lia).
  rewrite <- (app_nil_r (before ++ marker ++ [newline])) at 1.
  rewrite pread_at. destruct to_read_bytes; reflexivity.
Qed.

Lemma scan_row_to_end (X : list ascii) :
  forall row done_ curr_pos,
    Forall (fun c => c <> newline /\ c <> "#"%char) row ->
    List.length done_ = curr_pos ->
    scan_row (List.length row) (done_ ++ row ++ X) curr_pos curr_pos
    = Some ((curr_pos + List.length row)%nat, false).
Proof.
  induction row as [|c row IH]; intros done_ curr_pos Hrow Hlen;
    cbn [List.length scan_row].
  - now rewrite Nat.add_0_r.
  - inversion Hrow as [|? ? [Hnl Hmark] Hrest]; subst.
    rewrite nth_error_app2, Nat.sub_diag by lia. cbn [app nth_error].
    rewrite (proj2 (Ascii.eqb_neq _ _) Hnl), (proj2 (Ascii.eqb_neq _ _) Hmark).
    replace (done_ ++ c :: row ++ X) with ((done_ ++ [c]) ++ row ++ X)
      by (rewrite <- app_assoc; reflexivity).
    rewrite (IH (done_ ++ [c]) (S (List.length done_)) Hrest)
      by (rewrite length_app; cbn [List.length]; lia).
    f_equal. f_equal. lia.
Qed.

(** A scan that reaches the end of the chunk ends the loop over its rows
    and leaves the rest of the chunk unprocessed. *)
Lemma parse_chunk_exhausted (realloc_ok : nat -> Z -> bool)
    (slb : nat -> nat -> ascii) (fuel : nat) (cols : ctrees_column_to_ptr)
    (nbytes_read : nat) (s : chunk_state) :
  scan_row nbytes_read (read_buffer s) 0 (start s) = Some (nbytes_read, false) ->
  parse_chunk realloc_ok slb (S fuel) cols nbytes_read s
  = Returned EXIT_SUCCESS
      {| read_buffer := read_buffer s; start := start s;
         bytes_processed := bytes_processed s; done := done s;
         info := info s; handed := handed s |}.
Proof.
  intros H. cbn [parse_chunk]. rewrite H, Nat.eqb_refl, orb_false_r. reflexivity.
Qed.

(** A chunk without a newline and without a marker is read again and
    again. *)
Lemma read_chunks_stuck (realloc_ok : nat -> Z -> bool)
    (slb : nat -> nat -> ascii) (fd : option (list ascii))
    (cols : ctrees_column_to_ptr) (data : list ascii) :
  data <> [] ->
  Forall (fun c => c <> newline /\ c <> "#"%char) data ->
  forall fuel buf t,
    pread fd to_read_bytes (tree_offset t) = Some data ->
    read_chunks realloc_ok slb fuel fd cols buf t = OutOfFuel.
Proof.
  intros Hne Hdata. induction fuel as [|fuel IH]; intros buf t Hread; [reflexivity|].
  cbn [read_chunks]. rewrite Hread.
  replace (Nat.eqb (List.length data) 0) with false
    by (destruct data; [contradiction | reflexivity]).
  rewrite parse_chunk_exhausted.
  2:{ cbn [read_buffer start]. unfold copy_into.
      exact (scan_row_to_end (skipn (List.length data) buf) data [] 0 Hdata eq_refl). }
  cbn [read_buffer start bytes_processed done info handed].
  change (EXIT_SUCCESS =? EXIT_SUCCESS) with true. cbn [negb Nat.leb].
  apply IH. cbn [tree_offset]. now rewrite Z.add_0_r.
Qed.

Lemma firstn_Forall {A : Type} (P : A -> Prop) (l : list A) :
  forall n, Forall P l -> Forall P (firstn n l).
Proof.
  induction l as [|x l IH]; intros [|n] H; cbn [firstn]; try constructor.
  - now inversion H.
  - apply IH. now inversion H.
Qed.

(** X13: a last row without a newline.  When what follows the marker line is
    not empty and holds neither a newline nor a ['#'], the loop over the
    chunks reads the same bytes again and again: whatever number of chunks
    the call is allowed, it has not returned. *)
Theorem read_single_tree_ctrees_unterminated (realloc_ok : nat -> Z -> bool)
    (sfl srb : nat -> ascii) (slb : nat -> nat -> ascii) (fuel : nat)
    (before marker body : list ascii) (cols : ctrees_column_to_ptr)
    (b : base_ptr_info) :
  ncols cols <= PARSE_CTREES_MAX_NCOLS ->
  Forall (fun c => c <> newline) marker ->
  (List.length marker < num_chars_first_tree_line)%nat ->
  body <> [] ->
  Forall (fun c => c <> newline /\ c <> "#"%char) body ->
  read_single_tree_ctrees realloc_ok sfl srb slb fuel
    (Some (before ++ marker ++ newline :: body))
    (Z.of_nat (List.length before)) cols b
  = OutOfFuel.
Proof.
  intros Hn Hmarker Hlen Hne Hbody.
  rewrite read_single_tree_ctrees_start by assumption.
  apply (read_chunks_stuck _ _ _ _ (firstn to_read_bytes body)).
  - destruct body; [contradiction|]. discriminate.
  - now apply firstn_Forall.
  - cbn [tree_offset].
    replace (Z.of_nat (List.length before) + Z.of_nat (List.length marker) + 1)
      with (Z.of_nat (List.length (before ++ marker ++ [newline])))
      by (rewrite !length_app; cbn [List.length]; lia).
    replace (before ++ marker ++ newline :: body)
      with ((before ++ marker ++ [newline]) ++ body)
      by (rewrite <- !app_assoc; reflexivity).
    apply pread_at.
Qed.

Lemma read_single_tree_ctrees_empty_block_witness :
  ncols (first_as I32) <= PARSE_CTREES_MAX_NCOLS
  /\ Forall (fun c => c <> newline) tree_marker
  /\ (List.length tree_marker < num_chars_first_tree_line)%nat
  /\ read_single_tree_ctrees always_ok zeroed zeroed zeroed_linebuf 1
       (Some ([] ++ tree_marker ++ [newline]))
       (Z.of_nat (List.length (@nil ascii))) (first_as I32) int_array
     = Returned EXIT_SUCCESS
         {| tree_info := int_array;
            tree_offset :=
              Z.of_nat (List.length (@nil ascii))
              + Z.of_nat (List.length tree_marker) + 1;
            tree_handed := [] |}.
Proof.
  assert (H1 : ncols (first_as I32) <= PARSE_CTREES_MAX_NCOLS)
    by (vm_compute; discriminate).
  assert (H2 : Forall (fun c => c <> newline) tree_marker)
    by (repeat constructor; discriminate).
  assert (H3 : (List.length tree_marker < num_chars_first_tree_line)%nat)
    by (vm_compute; lia).
  split; [exact H1|]. split; [exact H2|]. split; [exact H3|].
  apply (read_single_tree_ctrees_empty_block always_ok zeroed zeroed zeroed_linebuf
           0 [] tree_marker (first_as I32) int_array H1 H2 H3).
Defined.

Lemma read_single_tree_ctrees_unterminated_witness :
  ncols (first_as I32) <= PARSE_CTREES_MAX_NCOLS
  /\ Forall (fun c => c <> newline) tree_marker
  /\ (List.length tree_marker < num_chars_first_tree_line)%nat
  /\ open_row <> []
  /\ Forall (fun c => c <> newline /\ c <> "#"%char) open_row
  /\ read_single_tree_ctrees always_ok zeroed zeroed zeroed_linebuf 5
       (Some ([] ++ tree_marker ++ newline :: open_row))
       (Z.of_nat (List.length (@nil ascii))) (first_as I32) int_array
     = OutOfFuel.
Proof.
  assert (H1 : ncols (first_as I32) <= PARSE_CTREES_MAX_NCOLS)
    by (vm_compute; discriminate).
  assert (H2 : Forall (fun c => c <> newline) tree_marker)
    by (repeat constructor; discriminate).
  assert (H3 : (List.length tree_marker < num_chars_first_tree_line)%nat)
    by (vm_compute; lia).
  assert (H4 : open_row <> []) by discriminate.
  assert (H5 : Forall (fun c => c <> newline /\ c <> "#"%char) open_row)
    by (repeat constructor; discriminate).
  split; [exact H1|]. split; [exact H2|]. split; [exact H3|].
  split; [exact H4|]. split; [exact H5|].
  apply (read_single_tree_ctrees_unterminated always_ok zeroed zeroed zeroed_linebuf
           5 [] tree_marker open_row (first_as I32) int_array H1 H2 H3 H4 H5).
Defined.

(** ** [read_single_tree_ctrees]: refused calls, and the row counter *)

(** X14: the calls that [read_single_tree_ctrees] refuses at once.  A mapping
    of more than [PARSE_CTREES_MAX_NCOLS] columns, a descriptor that cannot
    be read, a negative offset and an offset at or beyond the end of the
    file all give [EXIT_FAILURE]; the line parser is not called and the
    storage is untouched. *)
Theorem read_single_tree_ctrees_rejects (realloc_ok : nat -> Z -> bool)
    (sfl srb : nat -> ascii) (slb : nat -> nat -> ascii) (fuel : nat)
    (fd : option (list ascii)) (offset : Z) (cols : ctrees_column_to_ptr)
    (b : base_ptr_info) :
  ncols cols > PARSE_CTREES_MAX_NCOLS
  \/ fd = None
  \/ offset < 0
  \/ (exists file, fd = Some file /\ Z.of_nat (List.length file) <= offset) ->
  read_single_tree_ctrees realloc_ok sfl srb slb fuel fd offset cols b
  = Returned EXIT_FAILURE {| tree_info := b; tree_offset := offset; tree_handed := [] |}.
Proof.
  intros H. unfold read_single_tree_ctrees.
  destruct (_ >? _) eqn:E; [reflexivity|].
  rewrite Z.gtb_ltb in E. apply Z.ltb_ge in E.
  destruct H as [H|[->|[H|(file & -> & H)]]]; [lia|reflexivity| |].
  - unfold pread. destruct fd; [|reflexivity].
    now rewrite (proj2 (Z.ltb_lt _ _) H).
  - unfold pread. destruct (offset <? 0); [reflexivity|].
    rewrite skipn_all2 by lia. now rewrite firstn_nil.
Qed.

Lemma read_single_tree_ctrees_rejects_witness :
  (ncols (first_as I32) > PARSE_CTREES_MAX_NCOLS
   \/ two_rows_file = None
   \/ 16 < 0
   \/ exists file, two_rows_file = Some file /\ Z.of_nat (List.length file) <= 16)
  /\ read_single_tree_ctrees always_ok zeroed zeroed zeroed_linebuf 4
       two_rows_file 16 (first_as I32) int_array
     = Returned EXIT_FAILURE
         {| tree_info := int_array; tree_offset := 16; tree_handed := [] |}.
Proof.
  assert (H : ncols (first_as I32) > PARSE_CTREES_MAX_NCOLS
              \/ two_rows_file = None
              \/ 16 < 0
              \/ exists file,
                   two_rows_file = Some file /\ Z.of_nat (List.length file) <= 16).
  { right. right. right. eexists. split; [reflexivity|]. vm_compute. discriminate. }
  split; [exact H|].
  apply (read_single_tree_ctrees_rejects always_ok zeroed zeroed zeroed_linebuf 4
           two_rows_file 16 (first_as I32) int_array H).
Defined.

Lemma parse_chunk_rows (realloc_ok : nat -> Z -> bool)
    (slb : nat -> nat -> ascii) (cols : ctrees_column_to_ptr)
    (nbytes_read : nat) (n0 : Z) :
  forall fuel s s',
    parse_chunk realloc_ok slb fuel cols nbytes_read s = Returned EXIT_SUCCESS s' ->
    N (info s) = n0 + ncols cols * Z.of_nat (List.length (handed s)) ->
    N (info s') = n0 + ncols cols * Z.of_nat (List.length (handed s')).
Proof.
  induction fuel as [|fuel IH]; intros s s' H Hs; [discriminate|].
  cbn [parse_chunk] in H.
  destruct (scan_row _ _ _ _) as [[curr_pos marker]|]; [|discriminate].
  destruct (Nat.eqb curr_pos nbytes_read).
  { inversion H; subst. exact Hs. }
  destruct (Nat.ltb _ curr_pos); [discriminate|].
  destruct (cstring _) as [line|]; [|discriminate].
  destruct (parse_line_ctrees _ _ _ _) as [st info'| |] eqn:E; try discriminate.
  destruct (st =? EXIT_SUCCESS) eqn:S; cbn [negb] in H.
  2:{ inversion H; subst. discriminate. }
  apply Z.eqb_eq in S; subst st.
  apply parse_line_ctrees_counter in E.
  assert (Hs' : N info' = n0 + ncols cols * Z.of_nat (List.length (handed s ++ [line])))
    by (rewrite length_app; cbn [List.length]; lia).
  destruct marker.
  - inversion H; subst. exact Hs'.
  - apply IH in H; [exact H | exact Hs'].
Qed.

Lemma read_chunks_rows (realloc_ok : nat -> Z -> bool)
    (slb : nat -> nat -> ascii) (fd : option (list ascii))
    (cols : ctrees_column_to_ptr) (n0 : Z) :
  forall fuel buf t t',
    read_chunks realloc_ok slb fuel fd cols buf t = Returned EXIT_SUCCESS t' ->
    N (tree_info t) = n0 + ncols cols * Z.of_nat (List.length (tree_handed t)) ->
    tree_offset t <= tree_offset t' /\
    N (tree_info t') = n0 + ncols cols * Z.of_nat (List.length (tree_handed t')).
Proof.
  induction fuel as [|fuel IH]; intros buf t t' H Ht; [discriminate|].
  cbn [read_chunks] in H.
  destruct (pread _ _ _) as [data|]; [|inversion H; discriminate].
  destruct (Nat.eqb _ 0).
  { inversion H; subst. split; [lia | exact Ht]. }
  destruct (parse_chunk _ _ _ _ _ _) as [st s| |] eqn:E; try discriminate.
  destruct (st =? EXIT_SUCCESS) eqn:S; cbn [negb] in H.
  2:{ inversion H; subst. discriminate. }
  apply Z.eqb_eq in S; subst st.
  apply (parse_chunk_rows _ _ _ _ n0) in E; [|exact Ht].
  destruct (negb (Nat.leb _ _)); [inversion H; discriminate|].
  destruct (done s).
  - inversion H; subst. cbn [tree_offset tree_info tree_handed]. split; [lia | exact E].
  - apply IH in H; [|exact E]. cbn [tree_offset] in H. split; [lia | tauto].
Qed.

(** X15: what a successful call has done to the row counter.  When
    [read_single_tree_ctrees] returns [EXIT_SUCCESS], the row counter has
    advanced by the number of mapped columns for each call of the line
    parser, and the offset at which it stopped reading lies beyond the one
    it was given. *)
Theorem read_single_tree_ctrees_rows (realloc_ok : nat -> Z -> bool)
    (sfl srb : nat -> ascii) (slb : nat -> nat -> ascii) (fuel : nat)
    (fd : option (list ascii)) (offset : Z) (cols : ctrees_column_to_ptr)
    (b : base_ptr_info) (t : tree_state) :
  read_single_tree_ctrees realloc_ok sfl srb slb fuel fd offset cols b
    = Returned EXIT_SUCCESS t ->
  N (tree_info t) = N b + ncols cols * Z.of_nat (List.length (tree_handed t)) /\
  offset < tree_offset t.
Proof.
  unfold read_single_tree_ctrees. intros H.
  destruct (_ >? _); [inversion H; discriminate|].
  destruct (pread fd _ offset) as [[|c data]|]; try (inversion H; discriminate).
  apply (read_chunks_rows _ _ _ _ (N b)) in H.
  - cbn [tree_offset] in H. destruct H as [Hoff HN]. split; [exact HN|].
    unfold copy_into in Hoff. cbn [app skip_first_tree_line] in Hoff.
    assert (Hskip : forall l o, o <= skip_first_tree_line l o).
    { induction l as [|x l IH]; intros o; cbn [skip_first_tree_line]; [lia|].
      destruct (Ascii.eqb x newline); [lia|]. specialize (IH (o + 1)). lia. }
    destruct (Ascii.eqb c newline); [lia|].
    match type of Hoff with
    | skip_first_tree_line ?l ?o <= _ => specialize (Hskip l o)
    end. lia.
  - cbn [tree_info tree_handed List.length]. lia.
Qed.

Lemma read_single_tree_ctrees_rows_witness :
  read_single_tree_ctrees always_ok zeroed zeroed zeroed_linebuf 4
    two_rows_file 0 (first_as I32) int_array
  = Returned EXIT_SUCCESS
      {| tree_info :=
           {| base_ptrs :=
                [ {| block := encode (Vint32 1) ++ encode (Vint32 1)
                              ++ repeat Mundef 24;
                     base_element_size := 4 |} ];
              N := 2; nallocated := 8 |};
         tree_offset := 16;
         tree_handed := ["1 2"; "1 2"] |}
  /\ exists t,
       read_single_tree_ctrees always_ok zeroed zeroed zeroed_linebuf 4
         two_rows_file 0 (first_as I32) int_array = Returned EXIT_SUCCESS t /\
       N (tree_info t)
       = N int_array + ncols (first_as I32) * Z.of_nat (List.length (tree_handed t)) /\
       0 < tree_offset t.
Proof.
  assert (H : read_single_tree_ctrees always_ok zeroed zeroed zeroed_linebuf 4
                two_rows_file 0 (first_as I32) int_array
              = Returned EXIT_SUCCESS
                  {| tree_info :=
                       {| base_ptrs :=
                            [ {| block := encode (Vint32 1) ++ encode (Vint32 1)
                                          ++ repeat Mundef 24;
                                 base_element_size := 4 |} ];
                          N := 2; nallocated := 8 |};
                     tree_offset := 16;
                     tree_handed := ["1 2"; "1 2"] |})
    by (vm_compute; reflexivity).
  split; [exact H|].
  eexists. split; [exact H|].
  exact (read_single_tree_ctrees_rows always_ok zeroed zeroed zeroed_linebuf 4
           two_rows_file 0 (first_as I32) int_array _ H).
Defined.

(** ** [read_single_tree_ctrees]: a row that runs over the end of a chunk *)

(** The scan passes over the characters that are neither a newline nor a
    marker. *)
Lemma scan_row_passes (row : list ascii) :
  forall pre rest n curr_pos,
    Forall passed_over row ->
    scan_row (List.length row + n) (pre ++ row ++ rest) curr_pos (List.length pre)
    = scan_row n (pre ++ row ++ rest) (curr_pos + List.length row)
        (List.length pre + List.length row).
Proof.
  induction row as [|c row IH]; intros pre rest n curr_pos Hrow;
    cbn [List.length Nat.add].
  - now rewrite !Nat.add_0_r.
  - inversion Hrow as [|? ? [Hnl Hmark] Hrest]; subst.
    cbn [scan_row].
    rewrite nth_error_app2, Nat.sub_diag by lia. cbn [app nth_error].
    rewrite (proj2 (Ascii.eqb_neq _ _) Hnl), (proj2 (Ascii.eqb_neq _ _) Hmark).
    replace (pre ++ c :: row ++ rest) with ((pre ++ [c]) ++ row ++ rest)
      by (rewrite <- app_assoc; reflexivity).
    replace (S (List.length pre)) with (List.length (pre ++ [c]))
      by (rewrite length_app; cbn [List.length]; lia).
    rewrite IH by exact Hrest.
    rewrite length_app. cbn [List.length]. f_equal; lia.
Qed.

Lemma scan_row_at_newline (pre rest : list ascii) (n curr_pos : nat) :
  scan_row (S n) (pre ++ newline :: rest) curr_pos (List.length pre)
  = Some (curr_pos, false).
Proof.
  cbn [scan_row]. rewrite nth_error_app2, Nat.sub_diag by lia. reflexivity.
Qed.

Lemma scan_row_past_end (buf : list ascii) (n curr_pos : nat) :
  scan_row (S n) buf curr_pos (List.length buf) = None.
Proof.
  cbn [scan_row].
  now replace (nth_error buf (List.length buf)) with (@None ascii)
    by (symmetry; apply nth_error_None; lia).
Qed.

Lemma last_byte_of_read_buffer (srb : nat -> ascii) :
  skipn to_read_bytes (automatic_array srb sizeof_read_buffer) = [srb to_read_bytes].
Proof.
  unfold automatic_array. rewrite skipn_map, skipn_seq. reflexivity.
Qed.

(** The loop over the rows of a full chunk, after a first row that the
    line parser accepted: the scan of the row that the chunk does not
    complete leaves [read_buffer]. *)
Lemma parse_chunk_overrun (realloc_ok : nat -> Z -> bool)
    (slb : nat -> nat -> ascii) (fuel : nat) (cols : ctrees_column_to_ptr)
    (pre tail : list ascii) (last : ascii) (s : chunk_state) :
  read_buffer s = pre ++ tail ++ [last] ->
  start s = List.length pre ->
  (2 <= List.length pre)%nat ->
  (List.length pre + List.length tail = to_read_bytes)%nat ->
  Forall passed_over tail -> passed_over last ->
  parse_chunk realloc_ok slb (S fuel) cols to_read_bytes s = Undefined.
Proof.
  intros Hbuf Hstart Hpre Hlen Htail Hlast.
  assert (Hscan : scan_row to_read_bytes (pre ++ tail ++ [last]) 0 (List.length pre)
                  = None).
  { assert (Hplain : Forall passed_over (tail ++ [last]))
      by (apply Forall_app; split; [exact Htail | now constructor]).
    pose proof (scan_row_passes (tail ++ [last]) pre [] (S (List.length pre - 2)) 0
                  Hplain) as Hp.
    rewrite app_nil_r in Hp.
    replace (List.length (tail ++ [last]) + S (List.length pre - 2))%nat
      with to_read_bytes in Hp
      by (rewrite length_app; cbn [List.length]; lia).
    rewrite Hp.
    replace (List.length pre + List.length (tail ++ [last]))%nat
      with (List.length (pre ++ tail ++ [last]))
      by (rewrite !length_app; reflexivity).
    apply scan_row_past_end. }
  cbn [parse_chunk]. now rewrite Hbuf, Hstart, Hscan.
Qed.

(** A row longer than [linebuf] overflows it. *)
Lemma parse_chunk_long_row (realloc_ok : nat -> Z -> bool)
    (slb : nat -> nat -> ascii) (fuel : nat) (cols : ctrees_column_to_ptr)
    (nbytes_read curr_pos : nat) (s : chunk_state) :
  scan_row nbytes_read (read_buffer s) 0 (start s) = Some (curr_pos, false) ->
  curr_pos <> nbytes_read ->
  Nat.ltb (Z.to_nat PARSE_CTREES_MAXBUFSIZE) curr_pos = true ->
  parse_chunk realloc_ok slb (S fuel) cols nbytes_read s = Undefined.
Proof.
  intros Hscan Hrow Hbig. cbn [parse_chunk]. rewrite Hscan.
  rewrite (proj2 (Nat.eqb_neq _ _) Hrow). now rewrite Hbig.
Qed.

(** X16: a row that a full chunk cuts off.  When the first chunk of a block
    is filled by a complete row of at least one character and the start of
    a second row, and the last byte of [read_buffer], which no read writes,
    is neither a newline nor a ['#'], the call does not succeed: either the
    first row is refused, or the scan for the end of the second row reads
    past the end of [read_buffer]. *)
Theorem read_single_tree_ctrees_overrun (realloc_ok : nat -> Z -> bool)
    (sfl srb : nat -> ascii) (slb : nat -> nat -> ascii) (fuel : nat)
    (before marker row tail more : list ascii) (cols : ctrees_column_to_ptr)
    (b : base_ptr_info) :
  ncols cols <= PARSE_CTREES_MAX_NCOLS ->
  Forall (fun c => c <> newline) marker ->
  (List.length marker < num_chars_first_tree_line)%nat ->
  row <> [] ->
  Forall passed_over row -> Forall passed_over tail ->
  (List.length row + 1 + List.length tail = to_read_bytes)%nat ->
  passed_over (srb to_read_bytes) ->
  match
    read_single_tree_ctrees realloc_ok sfl srb slb (S fuel)
      (Some (before ++ marker ++ newline :: (row ++ newline :: tail) ++ more))
      (Z.of_nat (List.length before)) cols b
  with
  | Returned status _ => status <> EXIT_SUCCESS
  | Undefined => True
  | OutOfFuel => False
  end.
Proof.
  intros Hn Hmarker Hmlen Hrow Hrowp Htail Hlen Hlast.
  rewrite read_single_tree_ctrees_start by assumption.
  cbn [read_chunks tree_offset tree_info tree_handed].
  replace (Z.of_nat (List.length before) + Z.of_nat (List.length marker) + 1)
    with (Z.of_nat (List.length (before ++ marker ++ [newline])))
    by (rewrite !length_app; cbn [List.length]; lia).
  replace (before ++ marker ++ newline :: (row ++ newline :: tail) ++ more)
    with ((before ++ marker ++ [newline]) ++ (row ++ newline :: tail) ++ more)
    by (rewrite <- !app_assoc; reflexivity).
  rewrite pread_at.
  rewrite firstn_app, firstn_all2
    by (rewrite length_app; cbn [List.length]; lia).
  replace (to_read_bytes - List.length (row ++ newline :: tail))%nat with 0%nat
    by (rewrite length_app; cbn [List.length]; lia).
  cbn [firstn]. rewrite app_nil_r.
  assert (Hdata : List.length (row ++ newline :: tail) = to_read_bytes)
    by (rewrite length_app; cbn [List.length]; lia).
  rewrite Hdata.
  replace (Nat.eqb to_read_bytes 0) with false
    by (symmetry; apply Nat.eqb_neq; lia).
  unfold copy_into at 1. rewrite Hdata, last_byte_of_read_buffer.
  set (s0 := {| read_buffer := (row ++ newline :: tail) ++ [srb to_read_bytes];
                start := 0; bytes_processed := 0; done := false;
                info := b; handed := [] |}).
  assert (Hscan : scan_row to_read_bytes (read_buffer s0) 0 (start s0)
                  = Some (List.length row, false)).
  { cbn [s0 read_buffer start].
    pose proof (scan_row_passes row [] (newline :: tail ++ [srb to_read_bytes])
                  (S (List.length tail)) 0 Hrowp) as Hp.
    cbn [app List.length Nat.add] in Hp.
    rewrite <- app_assoc. cbn [app].
    replace to_read_bytes with (List.length row + S (List.length tail))%nat at 1
      by lia.
    rewrite Hp. exact (scan_row_at_newline row _ _ _). }
  destruct (Nat.ltb (Z.to_nat PARSE_CTREES_MAXBUFSIZE) (List.length row)) eqn:Ebig.
  { now rewrite (parse_chunk_long_row _ _ _ _ _ _ s0 Hscan ltac:(lia) Ebig). }
  apply Nat.ltb_ge in Ebig.
  rewrite (parse_chunk_row _ _ _ _ _ _ s0 Hscan ltac:(lia) Ebig).
  destruct (cstring _) as [line|]; [|exact I].
  pose proof (parse_line_ctrees_terminates realloc_ok line cols (info s0)) as Hterm.
  destruct (parse_line_ctrees realloc_ok line cols (info s0)) as [st info'| |];
    [|exact I|contradiction].
  cbv zeta.
  destruct (st =? EXIT_SUCCESS) eqn:Est.
  2:{ rewrite Est. cbn [negb]. now apply Z.eqb_neq. }
  change sizeof_read_buffer with (S (pred sizeof_read_buffer)).
  rewrite (parse_chunk_overrun _ _ _ _ (row ++ [NUL]) tail (srb to_read_bytes)).
  - exact I.
  - cbn [read_buffer s0]. unfold set_char.
    rewrite <- !app_assoc.
    rewrite firstn_app, firstn_all, Nat.sub_diag. cbn [firstn]. rewrite app_nil_r.
    replace (S (List.length row)) with (List.length row + 1)%nat by lia.
    rewrite skipn_app, skipn_all2 by lia.
    replace (List.length row + 1 - List.length row)%nat with 1%nat by lia.
    reflexivity.
  - cbn [start s0]. rewrite length_app. cbn [List.length]. lia.
  - rewrite length_app. cbn [List.length]. destruct row; [contradiction|].
    cbn [List.length]. lia.
  - rewrite length_app. cbn [List.length]. lia.
  - exact Htail.
  - exact Hlast.
Qed.

Lemma read_single_tree_ctrees_overrun_witness :
  ncols (first_as I32) <= PARSE_CTREES_MAX_NCOLS
  /\ Forall (fun c => c <> newline) tree_marker
  /\ (List.length tree_marker < num_chars_first_tree_line)%nat
  /\ ["1"%char] <> []
  /\ Forall passed_over ["1"%char]
  /\ Forall passed_over long_row
  /\ (List.length ["1"%char] + 1 + List.length long_row = to_read_bytes)%nat
  /\ passed_over (zeroed to_read_bytes)
  /\ match
       read_single_tree_ctrees always_ok zeroed zeroed zeroed_linebuf 1
         (Some ([] ++ tree_marker ++ newline :: (["1"%char] ++ newline :: long_row) ++ []))
         (Z.of_nat (List.length (@nil ascii))) (first_as I32) int_array
     with
     | Returned status _ => status <> EXIT_SUCCESS
     | Undefined => True
     | OutOfFuel => False
     end.
Proof.
  assert (H1 : ncols (first_as I32) <= PARSE_CTREES_MAX_NCOLS)
    by (vm_compute; discriminate).
  assert (H2 : Forall (fun c => c <> newline) tree_marker)
    by (repeat constructor; discriminate).
  assert (H3 : (List.length tree_marker < num_chars_first_tree_line)%nat)
    by (vm_compute; lia).
  assert (H4 : ["1"%char] <> []) by discriminate.
  assert (H5 : Forall passed_over ["1"%char])
    by (repeat constructor; discriminate).
  assert (H6 : Forall passed_over long_row).
  { apply Forall_forall. intros c Hc. apply repeat_spec in Hc. subst c.
    split; discriminate. }
  assert (H7 : (List.length ["1"%char] + 1 + List.length long_row = to_read_bytes)%nat)
    by (vm_compute; reflexivity).
  assert (H8 : passed_over (zeroed to_read_bytes))
    by (split; discriminate).
  split; [exact H1|]. split; [exact H2|]. split; [exact H3|]. split; [exact H4|].
  split; [exact H5|]. split; [exact H6|]. split; [exact H7|]. split; [exact H8|].
  apply (read_single_tree_ctrees_overrun always_ok zeroed zeroed zeroed_linebuf 0
           [] tree_marker ["1"%char] long_row [] (first_as I32) int_array
           H1 H2 H3 H4 H5 H6 H7 H8).
Defined.

(** ** [parse_header_ctrees]: a well-formed header line *)

Lemma chars_app (a b : string) :
  list_ascii_of_string (a ++ b) = list_ascii_of_string a ++ list_ascii_of_string b.
Proof.
  induction a as [|c a IH]; [reflexivity|]. cbn. now rewrite IH.
Qed.

Lemma string_app_nil (a : string) : (a ++ "")%string = a.
Proof.
  induction a as [|c a IH]; [reflexivity|]. cbn. now rewrite IH.
Qed.

Lemma string_app_assoc (a b c : string) :
  ((a ++ b) ++ c)%string = (a ++ (b ++ c))%string.
Proof.
  induction a as [|x a IH]; [reflexivity|]. cbn. now rewrite IH.
Qed.

Lemma string_length_app (a b : string) :
  String.length (a ++ b) = (String.length a + String.length b)%nat.
Proof.
  induction a as [|x a IH]; [reflexivity|]. cbn. now rewrite IH.
Qed.

Lemma free_of_app (sep : ascii -> bool) (a b : string) :
  free_of sep a -> free_of sep b -> free_of sep (a ++ b).
Proof.
  intros Ha Hb c Hc. rewrite chars_app in Hc. apply in_app_or in Hc.
  destruct Hc; [now apply Ha | now apply Hb].
Qed.

Lemma free_of_cons (sep : ascii -> bool) (c : ascii) (a : string) :
  sep c = false -> free_of sep a -> free_of sep (String c a).
Proof.
  intros Hc Ha x [<-|Hx]; [exact Hc | now apply Ha].
Qed.

Lemma free_of_nil (sep : ascii -> bool) : free_of sep EmptyString.
Proof. intros c []. Qed.

Lemma free_of_weaken (sep sep' : ascii -> bool) (a : string) :
  (forall c, sep c = true -> sep' c = true) ->
  free_of sep' a -> free_of sep a.
Proof.
  intros Hsub Ha c Hc. specialize (Ha c Hc).
  destruct (sep c) eqn:E; [|reflexivity]. apply Hsub in E. congruence.
Qed.

Lemma is_delim_In (delim : string) (c : ascii) :
  is_delim delim c = true <-> In c (list_ascii_of_string delim).
Proof.
  unfold is_delim. rewrite existsb_exists. split.
  - intros (x & Hx & E). apply Ascii.eqb_eq in E. now subst.
  - intros H. exists c. split; [exact H | apply Ascii.eqb_refl].
Qed.

Lemma column_text_free (sep : ascii -> bool) (e : string * option string) :
  (forall c, sep c = true -> is_delim header_stops c = true) ->
  sep "("%char = false -> sep ")"%char = false ->
  entry_ok e ->
  free_of sep (column_text e).
Proof.
  intros Hsub Hopen Hclose (_ & Hname & Hd & _).
  unfold column_text. destruct (snd e) as [d|].
  - apply free_of_app; [exact (free_of_weaken _ _ _ Hsub Hname)|].
    apply free_of_cons; [exact Hopen|].
    apply free_of_app; [exact (free_of_weaken _ _ _ Hsub (Hd d eq_refl))|].
    apply free_of_cons; [exact Hclose | apply free_of_nil].
  - exact (free_of_weaken _ _ _ Hsub Hname).
Qed.

Lemma free_of_concat (sep : ascii -> bool) (texts : list string) :
  sep " "%char = false ->
  Forall (free_of sep) texts ->
  free_of sep (String.concat " " texts).
Proof.
  intros Hsp. induction 1 as [|t texts Ht Hts IH]; [apply free_of_nil|].
  cbn [String.concat]. destruct texts as [|t' texts]; [exact Ht|].
  apply free_of_app; [exact Ht|].
  apply free_of_cons; [exact Hsp | exact IH].
Qed.

Lemma split_at_delim_free (delim : string) (s : string) :
  free_of (is_delim delim) s -> split_at_delim delim s = (s, None).
Proof.
  induction s as [|c s IH]; intros H; [reflexivity|]. cbn [split_at_delim].
  rewrite (H c (or_introl eq_refl)), IH; [reflexivity|].
  intros x Hx. apply H. now right.
Qed.

Lemma split_at_delim_stop (delim : string) (s : string) (d : ascii) (rest : string) :
  free_of (is_delim delim) s -> is_delim delim d = true ->
  split_at_delim delim (s ++ String d rest) = (s, Some rest).
Proof.
  induction s as [|c s IH]; intros H Hd; cbn [append split_at_delim].
  - now rewrite Hd.
  - rewrite (H c (or_introl eq_refl)), IH; [reflexivity| |exact Hd].
    intros x Hx. apply H. now right.
Qed.

Lemma split_on_app_free (sep : ascii -> bool) (t s : string) :
  free_of sep t ->
  split_on sep (t ++ s) =
  match split_on sep s with
  | h :: tl => (t ++ h)%string :: tl
  | [] => [t]
  end.
Proof.
  induction t as [|c t IH]; intros H; cbn [append].
  - pose proof (split_on_nonempty sep s) as Hne.
    destruct (split_on sep s); [cbn in Hne; lia | reflexivity].
  - cbn [split_on]. rewrite (H c (or_introl eq_refl)), IH.
    + now destruct (split_on sep s).
    + intros x Hx. apply H. now right.
Qed.

(** The fields of a line of texts separated by single spaces, when the
    separators include the space and the character that ends the line. *)
Lemma split_on_line (sep : ascii -> bool) (last : ascii) :
  sep " "%char = true -> sep last = true ->
  forall texts,
    texts <> [] -> Forall (free_of sep) texts ->
    split_on sep (String.concat " " texts ++ String last EmptyString)
    = texts ++ [EmptyString].
Proof.
  intros Hsp Hlast. induction texts as [|t texts IH]; intros Hne Hfree;
    [contradiction|].
  inversion Hfree as [|? ? Ht Hts]; subst.
  cbn [String.concat]. destruct texts as [|t' texts].
  - rewrite split_on_app_free by exact Ht. cbn [split_on]. rewrite Hlast.
    now rewrite string_app_nil.
  - rewrite string_app_assoc, split_on_app_free by exact Ht.
    change ((" " ++ String.concat " " (t' :: texts)) ++ String last "")%string
      with (String " " (String.concat " " (t' :: texts) ++ String last "")).
    cbn [split_on]. rewrite Hsp, IH by (trivial; discriminate).
    now rewrite string_app_nil.
Qed.

(** The number of fields of such a line when the character that ends it is
    not a separator. *)
Lemma split_on_line_length (sep : ascii -> bool) (last : ascii) :
  sep " "%char = true -> sep last = false ->
  forall texts,
    texts <> [] -> Forall (free_of sep) texts ->
    List.length (split_on sep (String.concat " " texts ++ String last EmptyString))
    = List.length texts.
Proof.
  intros Hsp Hlast. induction texts as [|t texts IH]; intros Hne Hfree;
    [contradiction|].
  inversion Hfree as [|? ? Ht Hts]; subst.
  cbn [String.concat]. destruct texts as [|t' texts].
  - rewrite split_on_app_free by exact Ht. cbn [split_on]. now rewrite Hlast.
  - rewrite string_app_assoc, split_on_app_free by exact Ht.
    change ((" " ++ String.concat " " (t' :: texts)) ++ String last "")%string
      with (String " " (String.concat " " (t' :: texts) ++ String last "")).
    cbn [split_on]. rewrite Hsp. cbn [List.length].
    now rewrite IH by (trivial; discriminate).
Qed.

Lemma fgets_chars_line :
  forall body rest n,
    Forall (fun c => c <> newline) body ->
    (List.length body < n)%nat ->
    fgets_chars n (body ++ newline :: rest) = body ++ [newline].
Proof.
  induction body as [|c body IH]; intros rest n Hbody Hn.
  - destruct n; [cbn in Hn; lia|]. cbn [app fgets_chars].
    now change (Ascii.eqb newline newline) with true.
  - destruct n; [cbn in Hn; lia|]. inversion Hbody as [|? ? Hc Hrest]; subst.
    cbn [app fgets_chars]. rewrite (proj2 (Ascii.eqb_neq _ _) Hc).
    rewrite IH; [reflexivity | exact Hrest | cbn in Hn; lia].
Qed.

Lemma cstring_of_string (s : string) :
  free_of (fun c => Ascii.eqb c NUL) s ->
  cstring (list_ascii_of_string s ++ [NUL]) = Some s.
Proof.
  induction s as [|c s IH]; intros H; [reflexivity|].
  cbn [list_ascii_of_string app cstring].
  rewrite (H c (or_introl eq_refl)), IH; [reflexivity|].
  intros x Hx. apply H. now right.
Qed.

Lemma split_on_cons_length (sep : ascii -> bool) (c : ascii) (s : string) :
  List.length (split_on sep (String c s)) =
  if sep c then S (List.length (split_on sep s)) else List.length (split_on sep s).
Proof.
  cbn [split_on]. pose proof (split_on_nonempty sep s) as Hne.
  destruct (sep c); [reflexivity|].
  destruct (split_on sep s); [cbn in Hne; lia | reflexivity].
Qed.

Lemma line_stops_delimiters (c : ascii) :
  is_delim delimiters c = true -> is_delim line_stops c = true.
Proof.
  rewrite !is_delim_In. cbn. tauto.
Qed.

Lemma line_stops_header_delims (c : ascii) :
  is_delim header_delims c = true -> is_delim line_stops c = true.
Proof.
  rewrite !is_delim_In. cbn. tauto.
Qed.

Lemma line_stops_char (x c : ascii) :
  is_delim line_stops x = true ->
  Ascii.eqb c x = true -> is_delim line_stops c = true.
Proof.
  intros Hx E. apply Ascii.eqb_eq in E. now subst.
Qed.

Lemma header_stops_line_stops (c : ascii) :
  is_delim line_stops c = true -> is_delim header_stops c = true.
Proof.
  rewrite !is_delim_In. cbn. tauto.
Qed.

(** The second loop's body on the text of a well-formed column. *)
Lemma header_token_column (totncols col : Z) (e : string * option string) :
  entry_ok e ->
  (forall d, snd e = Some d -> atoi d = col) ->
  col < totncols ->
  header_token totncols (column_text e) col = Returned EXIT_SUCCESS (fst e).
Proof.
  intros (Hne & Hname & Hd & Hlen) Hidx Hcol. unfold header_token.
  assert (Hpos : 0 < Z.of_nat (String.length (column_text e))).
  { unfold column_text. destruct (snd e); [rewrite string_length_app|];
      destruct (fst e); try congruence; cbn [String.length]; lia. }
  rewrite (proj2 (Z.ltb_lt _ _) Hpos), (proj2 (Z.ltb_lt _ _) Hlen).
  cbn [andb negb].
  assert (Hopen : free_of (is_delim "(") (fst e)).
  { apply (free_of_weaken _ (is_delim header_stops)); [|exact Hname].
    intros c. rewrite !is_delim_In. cbn. tauto. }
  rewrite (proj2 (Z.ltb_lt _ _) Hcol). cbn [negb andb].
  unfold column_text. destruct (snd e) as [d|] eqn:Ed.
  - rewrite split_at_delim_stop by (trivial; reflexivity).
    assert (Hclose : free_of (is_delim ")") d).
    { apply (free_of_weaken _ (is_delim header_stops)); [|exact (Hd d eq_refl)].
      intros c. rewrite !is_delim_In. cbn. tauto. }
    rewrite split_at_delim_stop by (trivial; reflexivity).
    rewrite (Hidx d eq_refl), Z.eqb_refl. reflexivity.
  - rewrite split_at_delim_free by exact Hopen. reflexivity.
Qed.

(** The second loop over the texts of well-formed columns, followed by
    other tokens: the columns' names are appended and the loop continues
    with the other tokens. *)
Lemma header_names_columns (totncols : Z) (tokens : list string) :
  forall es col names,
    Forall entry_ok es ->
    (forall i name d,
        nth_error es i = Some (name, Some d) -> atoi d = col + Z.of_nat i) ->
    col + Z.of_nat (List.length es) <= totncols ->
    header_names totncols (map column_text es ++ tokens) col names
    = header_names totncols tokens (col + Z.of_nat (List.length es))
        (names ++ map fst es).
Proof.
  induction es as [|e es IH]; intros col names Hok Hidx Hcount.
  - cbn [map app List.length]. now rewrite app_nil_r, Z.add_0_r.
  - pose proof (Forall_inv Hok) as He. pose proof (Forall_inv_tail Hok) as Hes.
    cbn [map app header_names].
    assert (Hlen : Nat.eqb (String.length (column_text e)) 0 = false).
    { apply Nat.eqb_neq. destruct He as (Hne & _). unfold column_text.
      destruct (snd e); [rewrite string_length_app|];
        destruct (fst e); try congruence; cbn [String.length]; lia. }
    rewrite Hlen, header_token_column.
    + change (EXIT_SUCCESS =? EXIT_SUCCESS) with true. cbv iota.
      rewrite IH.
      * rewrite <- app_assoc. cbn [List.length app]. f_equal. lia.
      * exact Hes.
      * intros i name d Hi. rewrite (Hidx (S i) name d Hi). lia.
      * cbn [List.length] in Hcount. lia.
    + exact He.
    + intros d Ed. destruct e as [name o]. cbn in Ed. subst o.
      rewrite (Hidx 0%nat name d eq_refl). lia.
    + cbn [List.length] in Hcount. lia.
Qed.

Lemma chars_length (s : string) :
  List.length (list_ascii_of_string s) = String.length s.
Proof.
  induction s as [|c s IH]; [reflexivity|]. cbn. now rewrite IH.
Qed.

Lemma free_of_Forall (x : ascii) (s : string) :
  free_of (fun c => Ascii.eqb c x) s ->
  Forall (fun c => c <> x) (list_ascii_of_string s).
Proof.
  intros H. apply Forall_forall. intros c Hc. now apply Ascii.eqb_neq, H.
Qed.

Lemma texts_free (sep : ascii -> bool) (texts : list string) :
  (forall c, sep c = true -> is_delim line_stops c = true) ->
  Forall (free_of (is_delim line_stops)) texts ->
  Forall (free_of sep) texts.
Proof.
  intros Hsub. apply Forall_impl. intros t. now apply free_of_weaken.
Qed.

(** The texts of well-formed columns contain no character that ends a
    token or the line. *)
Lemma column_texts_free (es : list (string * option string)) :
  Forall entry_ok es ->
  Forall (free_of (is_delim line_stops)) (map column_text es).
Proof.
  intros Hok. apply Forall_map. eapply Forall_impl; [|exact Hok].
  intros e He. apply column_text_free; trivial.
  apply header_stops_line_stops.
Qed.

(** What the function does with the line [header_text texts]: [fgets]
    reads exactly that line, the first loop counts one column per text, and
    the second loop sees an empty token, the texts, and another empty
    token. *)
Lemma header_column_names_texts (texts : list string) (rest : list ascii) :
  texts <> [] ->
  Forall (free_of (is_delim line_stops)) texts ->
  Z.of_nat (String.length (header_text texts)) < PARSE_CTREES_MAXBUFSIZE ->
  header_column_names (Some (list_ascii_of_string (header_text texts) ++ rest))
  = header_names (Z.of_nat (List.length texts)) (texts ++ [EmptyString]) 0 [].
Proof.
  intros Htexts Hfree Hlen.
  set (body := String.concat " " texts).
  assert (Hnl : free_of (fun c => Ascii.eqb c newline) (String "#" body)).
  { apply free_of_cons; [reflexivity|]. apply free_of_concat; [reflexivity|].
    apply texts_free; trivial. intros c. apply line_stops_char. reflexivity. }
  assert (Hnul : free_of (fun c => Ascii.eqb c NUL) (header_text texts)).
  { unfold header_text. fold body. apply free_of_cons; [reflexivity|].
    apply free_of_app.
    - apply free_of_concat; [reflexivity|].
      apply texts_free; trivial. intros c. apply line_stops_char. reflexivity.
    - apply free_of_cons; [reflexivity | apply free_of_nil]. }
  assert (Hline : list_ascii_of_string (header_text texts) ++ rest
                  = list_ascii_of_string (String "#" body) ++ newline :: rest).
  { unfold header_text. fold body. cbn [list_ascii_of_string].
    rewrite chars_app. cbn [list_ascii_of_string app].
    now rewrite <- app_assoc. }
  assert (Hread : fgets_chars (Z.to_nat PARSE_CTREES_MAXBUFSIZE - 1)
                    (list_ascii_of_string (header_text texts) ++ rest)
                  = list_ascii_of_string (header_text texts)).
  { rewrite Hline, fgets_chars_line.
    - unfold header_text. fold body. cbn [list_ascii_of_string].
      now rewrite chars_app.
    - exact (free_of_Forall _ _ Hnl).
    - unfold header_text in Hlen. fold body in Hlen.
      cbn [String.length] in Hlen. rewrite string_length_app in Hlen.
      cbn [String.length] in Hlen.
      cbn [list_ascii_of_string List.length].
      rewrite chars_length.
      unfold PARSE_CTREES_MAXBUFSIZE in *. lia. }
  unfold header_column_names, fgets. rewrite Hread.
  destruct (list_ascii_of_string (header_text texts)) as [|c l] eqn:El;
    [unfold header_text in El; discriminate El|].
  rewrite <- El, (cstring_of_string _ Hnul).
  clear Hnl Hnul Hline Hread El. subst body. unfold header_text.
  change (Ascii.eqb "#" "#") with true. cbn [negb].
  unfold strsep_tokens.
  rewrite split_on_cons_length.
  change (is_delim header_delims "#") with false. cbv iota.
  rewrite split_on_line_length;
    [| reflexivity | reflexivity | exact Htexts
     | apply texts_free; trivial; apply line_stops_header_delims].
  cbn [split_on]. change (is_delim delimiters "#") with true. cbv iota.
  rewrite split_on_line;
    [| reflexivity | reflexivity | exact Htexts
     | apply texts_free; trivial; apply line_stops_delimiters].
  reflexivity.
Qed.

(** X17: [parse_header_ctrees] reads back the column names of a well-formed
    header line.  When the file starts with ['#'], then one or more columns
    separated by single spaces, then a newline, where every column is a
    non-empty name optionally followed by a parenthesized number that
    [atoi] converts to the column's position, where names and numbers
    contain no NUL, parenthesis, space, comma, newline or ['#'], every
    column is shorter than [PARSE_CTREES_MAX_COLNAME_LEN] and the line is
    shorter than [PARSE_CTREES_MAXBUFSIZE], the part of the function up to
    the assertion [col == totncols] succeeds and [names] holds exactly the
    names, in file order, whatever follows the line in the file. *)
Theorem header_column_names_of_line (es : list (string * option string))
    (rest : list ascii) :
  es <> [] ->
  Forall entry_ok es ->
  (forall i name d,
      nth_error es i = Some (name, Some d) -> atoi d = Z.of_nat i) ->
  Z.of_nat (String.length (header_line es)) < PARSE_CTREES_MAXBUFSIZE ->
  header_column_names (Some (list_ascii_of_string (header_line es) ++ rest))
  = Returned EXIT_SUCCESS (map fst es).
Proof.
  intros Hne Hok Hidx Hlen. unfold header_line in *.
  rewrite header_column_names_texts;
    [| destruct es; [contradiction | discriminate]
     | now apply column_texts_free | exact Hlen].
  rewrite length_map.
  rewrite (header_names_columns _ _ es 0 [] Hok Hidx) by lia.
  cbn [header_names String.length Nat.eqb app].
  now rewrite Z.add_0_l, Z.eqb_refl.
Qed.

Lemma header_column_names_of_line_witness :
  header_column_names
    (Some (list_ascii_of_string (header_line abc_columns)
           ++ list_ascii_of_string "1 2 3"))
  = Returned EXIT_SUCCESS ["a"; "b"; "c"]%string.
Proof.
  apply (header_column_names_of_line abc_columns (list_ascii_of_string "1 2 3")).
  - discriminate.
  - repeat constructor; try discriminate;
      try (intros c Hc; cbn in Hc; intuition (subst; reflexivity));
      try (intros d [= <-] c Hc; cbn in Hc; intuition (subst; reflexivity));
      try (intros d [=]).
  - intros [|[|[|[|i]]]] name d; cbn [nth_error abc_columns];
      intros [= <- <-] || intros [=]; reflexivity.
  - reflexivity.
Defined.

(** X18: an empty field makes [parse_header_ctrees] reject an otherwise
    well-formed header line.  The first loop counts every token between
    spaces and commas in [totncols], the second loop skips the empty ones,
    so when the line has an empty field among its well-formed columns (two
    adjacent spaces, a space right after ['#'], or a space right before
    the newline) the assertion [col == totncols] fails after all names have
    been copied: the status is [EXIT_FAILURE]. *)
Theorem header_column_names_empty_field (before after : list (string * option string))
    (rest : list ascii) :
  Forall entry_ok before -> Forall entry_ok after ->
  (forall i name d,
      nth_error (before ++ after) i = Some (name, Some d) -> atoi d = Z.of_nat i) ->
  Z.of_nat (String.length (header_line (before ++ empty_field :: after)))
  < PARSE_CTREES_MAXBUFSIZE ->
  header_column_names
    (Some (list_ascii_of_string (header_line (before ++ empty_field :: after))
           ++ rest))
  = Returned EXIT_FAILURE (map fst (before ++ after)).
Proof.
  intros Hb Ha Hidx Hlen. unfold header_line in *.
  rewrite header_column_names_texts;
    [| destruct before; discriminate | | exact Hlen].
  - rewrite length_map, map_app, <- app_assoc.
    rewrite (header_names_columns _ _ before 0 [] Hb).
    + cbn [map column_text empty_field snd fst app header_names
           String.length Nat.eqb].
      rewrite (header_names_columns _ _ after _ _ Ha).
      * cbn [header_names String.length Nat.eqb app].
        rewrite length_app. cbn [List.length].
        replace (_ =? _) with false by (symmetry; apply Z.eqb_neq; lia).
        now rewrite map_app.
      * intros i name d Hi.
        rewrite (Hidx (List.length before + i)%nat name d); [lia|].
        now rewrite nth_error_app2, Nat.add_comm, Nat.add_sub by lia.
      * rewrite length_app. cbn [List.length]. lia.
    + intros i name d Hi. rewrite (Hidx i name d); [lia|].
      rewrite nth_error_app1; [exact Hi|].
      apply nth_error_Some. congruence.
    + rewrite length_app. lia.
  - rewrite map_app. apply Forall_app. split; [now apply column_texts_free|].
    constructor; [apply free_of_nil | now apply column_texts_free].
Qed.

Lemma header_column_names_empty_field_witness :
  header_column_names
    (Some (list_ascii_of_string
             (header_line ([("a", None)] ++ empty_field :: [("b", Some "1")]))
           ++ list_ascii_of_string "1 2"))
  = Returned EXIT_FAILURE ["a"; "b"]%string.
Proof.
  apply (header_column_names_empty_field
           [("a"%string, None)] [("b"%string, Some "1"%string)]
           (list_ascii_of_string "1 2")).
  - repeat constructor; try discriminate;
      try (intros c Hc; cbn in Hc; intuition (subst; reflexivity));
      try (intros d [=]).
  - repeat constructor; try discriminate;
      try (intros c Hc; cbn in Hc; intuition (subst; reflexivity));
      try (intros d [= <-] c Hc; cbn in Hc; intuition (subst; reflexivity)).
  - intros [|[|[|i]]] name d; cbn [nth_error app];
      intros [= <- <-] || intros [=]; reflexivity.
  - reflexivity.
Defined.

(** A column number beyond the range of [int] is compared after its
    conversion to [int]: [4294967297] is [2^32 + 1], which [atoi] gives as
    1, the position of the column, and the line is accepted. *)
Example header_column_number_wraps :
  atoi "4294967297" = 1 /\
  header_column_names (Some (list_ascii_of_string "#a b(4294967297)" ++ [newline]))
  = Returned EXIT_SUCCESS ["a"; "b"]%string.
Proof.
  split; reflexivity.
Qed.
